(** * VibeTutor: response normalisation, exam scoring, audio decoding and
      session state, embedded from the TypeScript sources.

    - [JsString], [Json]: the values the code manipulates (strings as
      sequences of UTF-16 code units, parsed JSON values) and the built-ins
      it calls on them ([String.prototype.trim], [JSON.parse], [||], [!]).
    - [GeminiService]: src/services/geminiService.ts.
    - [AudioUtils]: src/utils/audioUtils.ts.
    - [ExamModal]: src/components/ExamModal.tsx.
    - [KnowledgeGraph]: the KnowledgeGraph component.
    - [App]: the App component. *)

From Stdlib Require Import String Ascii QArith Lqa.
From stdpp Require Import base option list numbers gmap pretty.

Set Warnings "-register-all".
Local Open Scope N_scope.

(** ** JavaScript strings *)

Module JsString.

(** A JavaScript string is a sequence of 16-bit code units. *)
Definition jstring := list N.

Definition ch (a : ascii) : N := N_of_ascii a.

(** A source literal. *)
Definition js (s : string) : jstring := map ch (list_ascii_of_string s).

Definition quote : N := 34.

(** A literal in which the apostrophe stands for the double quote. *)
Definition jsq (s : string) : jstring :=
  map (fun c => if c =? 39 then quote else c) (js s).

(** The code units matched by [\s] in a regular expression without the
    [u] flag; [trim] removes exactly the same ones (WhiteSpace and
    LineTerminator). *)
Definition is_space (c : N) : bool :=
  ((9 <=? c) && (c <=? 13)) || (c =? 32) || (c =? 160) || (c =? 5760)
  || ((8192 <=? c) && (c <=? 8202)) || (c =? 8232) || (c =? 8233)
  || (c =? 8239) || (c =? 8287) || (c =? 12288) || (c =? 65279).

Definition is_nil {A} (l : list A) : bool :=
  match l with [] => true | _ => false end.

Fixpoint trim_start (s : jstring) : jstring :=
  match s with
  | c :: r => if is_space c then trim_start r else s
  | [] => []
  end.

Fixpoint trim_end (s : jstring) : jstring :=
  match s with
  | c :: r =>
      let r' := trim_end r in
      if is_space c && is_nil r' then [] else c :: r'
  | [] => []
  end.

(** [s.trim()] *)
Definition trim (s : jstring) : jstring := trim_end (trim_start s).

(** [s.substring(0, n)] for a non-negative [n]. *)
Definition substring0 (n : nat) (s : jstring) : jstring := take n s.

(** [s] starts with [p]. *)
Fixpoint starts_with (p s : jstring) : bool :=
  match p, s with
  | [], _ => true
  | a :: p', b :: s' => (a =? b) && starts_with p' s'
  | _ :: _, [] => false
  end.

(** The number of leading code units of [s] matched by [\s*]. *)
Fixpoint space_run (s : jstring) : nat :=
  match s with
  | c :: r => if is_space c then S (space_run r) else 0%nat
  | [] => 0%nat
  end.

End JsString.

Import JsString.

(** ** JSON values and [JSON.parse] *)

Module Json.

(** A parsed JSON value.  A number keeps the decimal it was written as:
    [JNumber neg m e] is [(-1)^neg * m * 10^e]. *)
Inductive json : Type :=
| JNull
| JBool (b : bool)
| JNumber (neg : bool) (mantissa : N) (exp10 : Z)
| JString (s : jstring)
| JArray (items : list json)
| JObject (members : list (jstring * json)).

(** A decimal that the conversion to a double rounds to zero: zero itself,
    or a magnitude of at most half the smallest subnormal, [2^-1075]. *)
Definition rounds_to_zero (m : N) (e : Z) : bool :=
  (m =? 0) ||
  ((e <? 0)%Z && (Z.of_N m * 2 ^ 1075 <=? 10 ^ (- e))%Z).

(** ToBoolean on a parsed value. *)
Definition truthy (v : json) : bool :=
  match v with
  | JNull => false
  | JBool b => b
  | JNumber _ m e => negb (rounds_to_zero m e)
  | JString s => negb (is_nil s)
  | JArray _ | JObject _ => true
  end.

(** [v || d] *)
Definition or_else (v : option json) (d : json) : json :=
  match v with
  | Some v => if truthy v then v else d
  | None => d
  end.

(** The last member named [k]: a repeated key overwrites the earlier
    one when the object is built. *)
Fixpoint lookup_member (k : jstring) (ms : list (jstring * json))
  : option json :=
  match ms with
  | [] => None
  | (k', v) :: ms' =>
      match lookup_member k ms' with
      | Some w => Some w
      | None => if bool_decide (k' = k) then Some v else None
      end
  end.

(** [v.k] for a property name that no prototype defines and that is
    neither an index nor [length] (the code reads [title], [description],
    [modules], [nodes] and [links]): the member of an object, [undefined]
    on any other value.  [v] is not [null]: the callers test that first. *)
Definition field (k : jstring) (v : json) : option json :=
  match v with
  | JObject ms => lookup_member k ms
  | _ => None
  end.

(** [Array.isArray(v) ? v : []] *)
Definition array_or_empty (v : option json) : list json :=
  match v with
  | Some (JArray items) => items
  | _ => []
  end.

(** *** The parser *)

Definition is_ws (c : N) : bool :=
  (c =? 32) || (c =? 9) || (c =? 10) || (c =? 13).

Fixpoint skip_ws (s : jstring) : jstring :=
  match s with
  | c :: r => if is_ws c then skip_ws r else s
  | [] => []
  end.

Definition is_digit (c : N) : bool := (48 <=? c) && (c <=? 57).

Fixpoint span_digits (s : jstring) : list N * jstring :=
  match s with
  | c :: r =>
      if is_digit c
      then let '(ds, rest) := span_digits r in (c :: ds, rest)
      else ([], s)
  | [] => ([], [])
  end.

Definition digits_value (ds : list N) : N :=
  fold_left (fun a d => a * 10 + (d - 48)) ds 0.

Definition hex_value (c : N) : option N :=
  if is_digit c then Some (c - 48)
  else if (65 <=? c) && (c <=? 70) then Some (c - 55)
  else if (97 <=? c) && (c <=? 102) then Some (c - 87)
  else None.

Definition escape_value (c : N) : option N :=
  if c =? quote then Some 34
  else if c =? ch "\" then Some 92
  else if c =? ch "/" then Some 47
  else if c =? ch "b" then Some 8
  else if c =? ch "f" then Some 12
  else if c =? ch "n" then Some 10
  else if c =? ch "r" then Some 13
  else if c =? ch "t" then Some 9
  else None.

(** The characters of a string after its opening quote, up to and
    including the closing one. *)
Fixpoint parse_chars (s acc : jstring) : option (jstring * jstring) :=
  match s with
  | [] => None
  | c :: r =>
      if c =? quote then Some (rev acc, r)
      else if c =? ch "\" then
        match r with
        | [] => None
        | e :: r1 =>
            if e =? ch "u" then
              match r1 with
              | h1 :: h2 :: h3 :: h4 :: r2 =>
                  match hex_value h1, hex_value h2,
                        hex_value h3, hex_value h4 with
                  | Some a, Some b, Some c', Some d =>
                      parse_chars r2
                        (((a * 16 + b) * 16 + c') * 16 + d :: acc)
                  | _, _, _, _ => None
                  end
              | _ => None
              end
            else
              match escape_value e with
              | Some x => parse_chars r1 (x :: acc)
              | None => None
              end
        end
      else if c <? 32 then None
      else parse_chars r (c :: acc)
  end.

(** [-? int frac? exp?] *)
Definition parse_number (s : jstring) : option (json * jstring) :=
  let '(neg, s1) :=
    match s with
    | c :: r => if c =? ch "-" then (true, r) else (false, s)
    | [] => (false, s)
    end in
  let '(int_ds, s2) :=
    match s1 with
    | c :: r => if c =? ch "0" then ([c], r) else span_digits s1
    | [] => ([], [])
    end in
  if is_nil int_ds then None else
  let frac :=
    match s2 with
    | c :: r =>
        if c =? ch "." then
          let '(ds, rest) := span_digits r in
          if is_nil ds then None else Some (ds, rest)
        else Some ([], s2)
    | [] => Some ([], s2)
    end in
  match frac with
  | None => None
  | Some (frac_ds, s3) =>
      let expo :=
        match s3 with
        | c :: r =>
            if (c =? ch "e") || (c =? ch "E") then
              let '(eneg, r1) :=
                match r with
                | sg :: r' =>
                    if sg =? ch "-" then (true, r')
                    else if sg =? ch "+" then (false, r')
                    else (false, r)
                | [] => (false, r)
                end in
              let '(ds, rest) := span_digits r1 in
              if is_nil ds then None
              else
                let e := Z.of_N (digits_value ds) in
                Some ((if eneg then - e else e)%Z, rest)
            else Some (0%Z, s3)
        | [] => Some (0%Z, s3)
        end in
      match expo with
      | None => None
      | Some (e, s4) =>
          Some (JNumber neg (digits_value (int_ds ++ frac_ds))
                  (e - Z.of_nat (length frac_ds))%Z, s4)
      end
  end.

Definition parse_literal (s : jstring) : option (json * jstring) :=
  if starts_with (js "true") s then Some (JBool true, drop 4 s)
  else if starts_with (js "false") s then Some (JBool false, drop 5 s)
  else if starts_with (js "null") s then Some (JNull, drop 4 s)
  else None.

(** Recursive descent.  The three mutually recursive parsers are given
    by their bodies, each taking the parsers it calls as arguments;
    [fuel] bounds the depth of the calls. *)

Definition parser (A : Type) : Type := jstring -> option (A * jstring).

(** A value: [elements] parses the rest of a non-empty array and
    [members] the rest of a non-empty object. *)
Definition value_body (elements members : parser json) : parser json :=
  fun s =>
    match skip_ws s with
    | [] => None
    | c :: r =>
        if c =? ch "{" then
          match skip_ws r with
          | c' :: r' =>
              if c' =? ch "}" then Some (JObject [], r')
              else members (c' :: r')
          | [] => None
          end
        else if c =? ch "[" then
          match skip_ws r with
          | c' :: r' =>
              if c' =? ch "]" then Some (JArray [], r')
              else elements (c' :: r')
          | [] => None
          end
        else if c =? quote then
          match parse_chars r [] with
          | Some (str, rest) => Some (JString str, rest)
          | None => None
          end
        else if (c =? ch "-") || is_digit c then parse_number (c :: r)
        else parse_literal (c :: r)
    end.

(** The elements of an array from the start of one of them on, after
    the elements [acc] (latest first). *)
Definition elements_body (value : parser json)
    (elements : list json -> parser json) (acc : list json) : parser json :=
  fun s =>
    match value s with
    | None => None
    | Some (v, rest) =>
        match skip_ws rest with
        | c :: r =>
            if c =? ch "," then elements (v :: acc) r
            else if c =? ch "]" then Some (JArray (rev (v :: acc)), r)
            else None
        | [] => None
        end
    end.

(** The members of an object from the key of one of them on. *)
Definition members_body (value : parser json)
    (members : list (jstring * json) -> parser json)
    (acc : list (jstring * json)) : parser json :=
  fun s =>
    match skip_ws s with
    | q :: r0 =>
        if q =? quote then
          match parse_chars r0 [] with
          | None => None
          | Some (key, r1) =>
              match skip_ws r1 with
              | colon :: r2 =>
                  if colon =? ch ":" then
                    match value r2 with
                    | None => None
                    | Some (v, rest) =>
                        match skip_ws rest with
                        | c :: r =>
                            if c =? ch ","
                            then members ((key, v) :: acc) r
                            else if c =? ch "}"
                            then Some (JObject (rev ((key, v) :: acc)), r)
                            else None
                        | [] => None
                        end
                    end
                  else None
              | [] => None
              end
          end
        else None
    | [] => None
    end.

Fixpoint parse_value (fuel : nat) (s : jstring) : option (json * jstring) :=
  match fuel with
  | O => None
  | S fuel =>
      value_body (fun t => parse_elements fuel [] t)
                 (fun t => parse_members fuel [] t) s
  end
with parse_elements (fuel : nat) (acc : list json) (s : jstring)
  : option (json * jstring) :=
  match fuel with
  | O => None
  | S fuel =>
      elements_body (fun t => parse_value fuel t)
                    (fun acc' t => parse_elements fuel acc' t) acc s
  end
with parse_members (fuel : nat) (acc : list (jstring * json)) (s : jstring)
  : option (json * jstring) :=
  match fuel with
  | O => None
  | S fuel =>
      members_body (fun t => parse_value fuel t)
                   (fun acc' t => parse_members fuel acc' t) acc s
  end.

(** [JSON.parse(text)]: [None] stands for the SyntaxError it throws.
    The fuel is enough for every text: more of it gives the same result
    ([JSON_parse_fuel] below). *)
Definition JSON_parse (text : jstring) : option json :=
  match parse_value (2 * length text + 2) text with
  | Some (v, rest) => if is_nil (skip_ws rest) then Some v else None
  | None => None
  end.

End Json.

Import Json.

(** ** src/services/geminiService.ts *)

Module GeminiService.

Inductive ContentDepth : Type := SUMMARY | STANDARD | DEEP_DIVE.

#[global] Instance ContentDepth_eq_dec : EqDecision ContentDepth.
Proof. solve_decision. Defined.

(** What a request asks of the service.  The interpolated values are
    kept; the fixed wording around them is not reproduced. *)
Inductive Instruction : Type :=
| ExtractStructure
| LessonFor (moduleTitle : jstring) (topics : list jstring)
            (depthInstruction : jstring)
| GraphOf
| ExamFor (moduleTitle : jstring)
| Speak (textToSpeak : jstring).

Record Request : Type := {
  model : jstring;
  document : option jstring;      (* the inline PDF, base64 *)
  instruction : Instruction;
  thinkingBudget : option N;
  jsonResponse : bool             (* responseMimeType and responseSchema *)
}.

(** The parts of a response that the code reads: [response.text] and
    [response.candidates?.[0]?.content?.parts?.[0]?.inlineData?.data]. *)
Record Response : Type := {
  text : option jstring;
  inlineData : option jstring
}.

(** How the promise of [ai.models.generateContent] settles. *)
Inductive Reply : Type :=
| Rejected
| Resolved (response : Response).

Definition Service := Request -> Reply.

Inductive Error : Type :=
| ServiceFailure
| ErrorMsg (message : string).

Inductive Result (A : Type) : Type :=
| Ok (a : A)
| Throw (e : Error).
Arguments Ok {A} a.
Arguments Throw {A} e.

(** *** safeParseJSON *)

Definition fence : jstring := js "```".
Definition fence_json : jstring := js "```json".

(** The length of the match of [/```json\s*|\s*```/] at the start of
    [s], [0] when there is none (a match has at least three code
    units). *)
Definition fence_match (s : jstring) : nat :=
  if starts_with fence_json s then (7 + space_run (drop 7 s))%nat
  else
    let n := space_run s in
    if starts_with fence (drop n s) then (n + 3)%nat else 0%nat.

(** [s.replace(/```json\s*|\s*```/g, "")]; [skip] code units of the
    current match are still to be dropped. *)
Fixpoint remove_fences (skip : nat) (s : jstring) : jstring :=
  match s with
  | [] => []
  | c :: r =>
      match skip with
      | S k => remove_fences k r
      | O =>
          match fence_match s with
          | O => c :: remove_fences 0 r
          | S k => remove_fences k r
          end
      end
  end.

Definition cleaned (t : jstring) : jstring := trim (remove_fences 0 t).

(** The result is the parsed value, or [null] ([JNull]). *)
Definition safeParseJSON (text : option jstring) : json :=
  match text with
  | None | Some [] => JNull
  | Some t =>
      match JSON_parse t with
      | Some v => v
      | None =>
          match JSON_parse (cleaned t) with
          | Some v => v
          | None => JNull
          end
      end
  end.

(** *** parseSyllabus *)

(** The object that [parseSyllabus] returns; the cast to the interface
    checks nothing, so [title] and [description] are whatever the
    payload held. *)
Record CourseStructure : Type := {
  title : json;
  description : json;
  modules : list json
}.

Definition structureRequest (fileBase64 : jstring) : Request :=
  {| model := js "gemini-3-flash-preview";
     document := Some fileBase64;
     instruction := ExtractStructure;
     thinkingBudget := None;
     jsonResponse := true |}.

Definition parse_failure : Error :=
  ErrorMsg "Failed to parse syllabus structure. The response might be incomplete or invalid.".

Definition parseSyllabus (ai : Service) (fileBase64 : jstring)
  : Result CourseStructure :=
  match ai (structureRequest fileBase64) with
  | Rejected => Throw ServiceFailure
  | Resolved response =>
      let parsed := safeParseJSON (text response) in
      if negb (truthy parsed) then Throw parse_failure
      else
        Ok {| title :=
                or_else (field (js "title") parsed)
                        (JString (js "Untitled Course"));
              description :=
                or_else (field (js "description") parsed) (JString []);
              modules := array_or_empty (field (js "modules") parsed) |}
  end.

(** *** generateLessonContent *)

Definition depthInstruction (depth : ContentDepth) : jstring :=
  match depth with
  | SUMMARY =>
      js "Provide a high-level summary with bullet points and key terms only. Be concise."
  | DEEP_DIVE =>
      js "Provide an academic deep dive. Expand on every point with rigorous detail, examples, analogies, and theoretical background. Cite concepts where appropriate."
  | STANDARD =>
      js "Provide a standard comprehensive lesson note. Balance clear explanations with sufficient detail."
  end.

Definition lessonRequest (syllabusBase64 moduleTitle : jstring)
    (topics : list jstring) (depth : ContentDepth) : Request :=
  let isDeepDive := bool_decide (depth = DEEP_DIVE) in
  {| model := if isDeepDive then js "gemini-3-pro-preview"
              else js "gemini-3-flash-preview";
     document := Some syllabusBase64;
     instruction := LessonFor moduleTitle topics (depthInstruction depth);
     thinkingBudget :=
       match depth with DEEP_DIVE => Some 8192 | _ => None end;
     jsonResponse := false |}.

Definition lesson_placeholder : jstring := js "Failed to generate content.".

(** [response.text || "Failed to generate content."] *)
Definition lessonText (response : Response) : jstring :=
  match text response with
  | None | Some [] => lesson_placeholder
  | Some t => t
  end.

(** What the promise of [generateLessonContent] settles to, given how
    the service call settled. *)
Definition lessonResult (reply : Reply) : Result jstring :=
  match reply with
  | Rejected => Throw ServiceFailure
  | Resolved response => Ok (lessonText response)
  end.


(** *** generateKnowledgeGraph *)

Record KnowledgeGraphData (A : Type) : Type := {
  nodes : list A;
  links : list A
}.
Arguments nodes {A} _.
Arguments links {A} _.

Definition graphRequest (syllabusBase64 : jstring) : Request :=
  {| model := js "gemini-3-flash-preview";
     document := Some syllabusBase64;
     instruction := GraphOf;
     thinkingBudget := None;
     jsonResponse := true |}.

Definition empty_graph : KnowledgeGraphData json :=
  {| nodes := []; links := [] |}.

(** [safeParseJSON(response.text) || {}], then the two fields. *)
Definition graphOfResponse (response : Response) : KnowledgeGraphData json :=
  let parsed := or_else (Some (safeParseJSON (text response))) (JObject []) in
  {| nodes := array_or_empty (field (js "nodes") parsed);
     links := array_or_empty (field (js "links") parsed) |}.

(** The whole body is inside [try]; the [catch] returns the empty graph,
    so the promise never rejects. *)
Definition generateKnowledgeGraph (ai : Service) (syllabusBase64 : jstring)
  : Result (KnowledgeGraphData json) :=
  match ai (graphRequest syllabusBase64) with
  | Rejected => Ok empty_graph
  | Resolved response => Ok (graphOfResponse response)
  end.

(** *** generateExam *)

Definition examRequest (syllabusBase64 moduleTitle : jstring) : Request :=
  {| model := js "gemini-3-pro-preview";
     document := Some syllabusBase64;
     instruction := ExamFor moduleTitle;
     thinkingBudget := Some 4096;
     jsonResponse := true |}.

(** [safeParseJSON(response.text) || []], kept when it is an array. *)
Definition examOfResponse (response : Response) : list json :=
  array_or_empty
    (Some (or_else (Some (safeParseJSON (text response))) (JArray []))).

Definition generateExam (ai : Service) (syllabusBase64 moduleTitle : jstring)
  : Result (list json) :=
  match ai (examRequest syllabusBase64 moduleTitle) with
  | Rejected => Ok []
  | Resolved response => Ok (examOfResponse response)
  end.

(** *** generateAudioLesson *)

Definition audioRequest (textToSpeak : jstring) : Request :=
  {| model := js "gemini-2.5-flash-preview-tts";
     document := None;
     instruction := Speak textToSpeak;
     thinkingBudget := None;
     jsonResponse := false |}.

Definition generateAudioLesson (ai : Service) (textToSpeak : jstring)
  : Result (option jstring) :=
  match ai (audioRequest textToSpeak) with
  | Rejected => Throw ServiceFailure
  | Resolved response => Ok (inlineData response)
  end.

End GeminiService.

Import GeminiService.

(** ** src/utils/audioUtils.ts *)

Module AudioUtils.

(** *** [atob]: the forgiving base64 decoding of the HTML standard *)

Definition is_ascii_ws (c : N) : bool :=
  (c =? 9) || (c =? 10) || (c =? 12) || (c =? 13) || (c =? 32).

Definition sextet (c : N) : option N :=
  if (65 <=? c) && (c <=? 90) then Some (c - 65)
  else if (97 <=? c) && (c <=? 122) then Some (c - 71)
  else if (48 <=? c) && (c <=? 57) then Some (c + 4)
  else if c =? ch "+" then Some 62
  else if c =? ch "/" then Some 63
  else None.

(** One or two trailing [=] are removed when the length is a multiple
    of four. *)
Definition strip_padding (d : jstring) : jstring :=
  if (length d mod 4 =? 0)%nat then
    match rev d with
    | a :: r =>
        if a =? ch "=" then
          match r with
          | b :: r' => if b =? ch "=" then rev r' else rev r
          | [] => rev r
          end
        else d
    | [] => d
    end
  else d.

(** Four sextets give three bytes; a rest of three gives two bytes and
    a rest of two gives one, the surplus bits being discarded. *)
Fixpoint decode_sextets (l : list N) : list N :=
  match l with
  | a :: b :: c :: d :: r =>
      let n := ((a * 64 + b) * 64 + c) * 64 + d in
      n / 65536 :: (n / 256) mod 256 :: n mod 256 :: decode_sextets r
  | [a; b; c] =>
      let n := (a * 64 + b) * 64 + c in
      [n / 1024; (n / 4) mod 256]
  | [a; b] => [(a * 64 + b) / 16]
  | _ => []
  end.

(** [atob(data)]: the binary string, one code unit below 256 per byte;
    [None] stands for the InvalidCharacterError it throws. *)
Definition atob (data : jstring) : option jstring :=
  let d := strip_padding (filter (fun c => is_ascii_ws c = false) data) in
  if (length d mod 4 =? 1)%nat then None
  else decode_sextets <$> mapM sextet d.

(** *** Typed arrays *)

(** Storing a number into a [Uint8Array] element. *)
Definition to_uint8 (c : N) : Z := Z.of_N c mod 256.

(** [new Int16Array(buffer)]: a view of the bytes as 16-bit signed
    integers in the byte order of the platform, little-endian here;
    [None] stands for the RangeError thrown when the byte length is
    odd. *)
Fixpoint int16_view (bytes : list Z) : option (list Z) :=
  match bytes with
  | [] => Some []
  | lo :: hi :: r =>
      let u := (lo + 256 * hi)%Z in
      cons (if (u <? 32768)%Z then u else (u - 65536)%Z) <$> int16_view r
  | [_] => None
  end.

(** *** The Web Audio objects *)

(** A single-channel [AudioBuffer].  The samples are 32-bit floats; all
    the values stored here are integers of at most 16 bits divided by
    [2^15], which a float holds exactly, so they are kept as
    rationals. *)
Record AudioBuffer : Type := {
  numberOfChannels : nat;
  frames : nat;                  (* buffer.length *)
  sampleRate : Z;
  channelData : list Q
}.

(** [buffer.duration], in seconds. *)
Definition duration (b : AudioBuffer) : Q :=
  Qmake (Z.of_nat (frames b)) (Z.to_pos (sampleRate b)).

(** An [AudioBufferSourceNode] that was started. *)
Record Source : Type := {
  buffer : AudioBuffer;
  startedAt : Q
}.

(** An [AudioContext]: its clock, the sample rates it accepts for a
    buffer, and the sources started on it (none is ever stopped by the
    code: [stop] is not called anywhere). *)
Record AudioContext : Type := {
  currentTime : Q;
  supportsRate : Z -> bool;
  sources : list Source
}.

(** [audioContext.createBuffer(numChannels, frameCount, sampleRate)]
    for one channel: a silent buffer; [None] stands for the
    NotSupportedError thrown for a zero frame count or a sample rate
    outside the supported range. *)
Definition createBuffer (ctx : AudioContext) (frameCount : nat)
    (rate : Z) : option AudioBuffer :=
  if (0 <? frameCount)%nat && supportsRate ctx rate
  then Some {| numberOfChannels := 1; frames := frameCount;
               sampleRate := rate;
               channelData := replicate frameCount 0%Q |}
  else None.

(** *** decodeAudioData *)

(** The loop [for (i = 0; i < frameCount; i++) channelData[i] =
    dataInt16[i] / 32768.0], from index [i] on. *)
Fixpoint fill_channel (i : nat) (dataInt16 : list Z) (channel : list Q)
  : list Q :=
  match dataInt16 with
  | [] => channel
  | x :: r => fill_channel (S i) r (<[i := Qmake x 32768]> channel)
  end.

Definition default_rate : Z := 24000.

(** [None] stands for a rejected promise. *)
Definition decodeAudioData (base64String : jstring) (ctx : AudioContext)
    (rate : Z) : option AudioBuffer :=
  binaryString ← atob base64String;
  let bytes := to_uint8 <$> binaryString in
  dataInt16 ← int16_view bytes;
  let frameCount := length dataInt16 in
  buf ← createBuffer ctx frameCount rate;
  Some {| numberOfChannels := numberOfChannels buf;
          frames := frames buf;
          sampleRate := sampleRate buf;
          channelData := fill_channel 0 dataInt16 (channelData buf) |}.

(** *** playAudioBuffer *)

(** A new source is created for the buffer, connected and started; the
    result is the context after the call and the source returned. *)
Definition playAudioBuffer (b : AudioBuffer) (ctx : AudioContext)
  : AudioContext * Source :=
  let source := {| buffer := b; startedAt := currentTime ctx |} in
  ({| currentTime := currentTime ctx;
      supportsRate := supportsRate ctx;
      sources := sources ctx ++ [source] |}, source).

(** The source is audible at time [t]: started, and its buffer not yet
    played to the end. *)
Definition is_playing (t : Q) (s : Source) : bool :=
  Qle_bool (startedAt s) t
  && negb (Qle_bool (startedAt s + duration (buffer s)) t).

Definition playing (ctx : AudioContext) : list Source :=
  filter (fun s => is_playing (currentTime ctx) s = true) (sources ctx).

(** The clock of the context advances by [dt] seconds. *)
Definition elapse (dt : Q) (ctx : AudioContext) : AudioContext :=
  {| currentTime := currentTime ctx + dt;
     supportsRate := supportsRate ctx;
     sources := sources ctx |}.

End AudioUtils.

Import AudioUtils.

(** ** src/components/ExamModal.tsx *)

Module ExamModal.

Record ExamQuestion : Type := {
  id : Z;
  question : jstring;
  options : list jstring;
  correctAnswerIndex : Z;
  explanation : jstring
}.

(** The state of the component: [answers] is the object used as a map
    from question id to chosen option index. *)
Record State : Type := {
  answers : gmap Z Z;
  submitted : bool
}.

(** [useState({})], [useState(false)] *)
Definition initial : State := {| answers := ∅; submitted := false |}.

Definition handleSelect (qId optionIdx : Z) (s : State) : State :=
  if submitted s then s
  else {| answers := <[qId := optionIdx]> (answers s);
          submitted := submitted s |}.

(** [answers[q.id] === q.correctAnswerIndex]; a question without an
    entry reads [undefined], which equals no number. *)
Definition correct (s : State) (q : ExamQuestion) : bool :=
  bool_decide (answers s !! id q = Some (correctAnswerIndex q)).

(** The [forEach] loop with its counter. *)
Definition calculateScore (questions : list ExamQuestion) (s : State) : nat :=
  fold_left (fun score q => if correct s q then S score else score)
    questions 0%nat.

(** [disabled={Object.keys(answers).length !== questions.length}] *)
Definition submit_disabled (questions : list ExamQuestion) (s : State)
  : bool :=
  negb (size (answers s) =? length questions)%nat.

(** What the user can do on the rendered component: press the button of
    option [oIdx] of the [qIdx]-th question, or press Submit Exam. *)
Inductive Action : Type :=
| Select (qIdx oIdx : nat)
| Submit.

Definition step (questions : list ExamQuestion) (s : State) (a : Action)
  : State :=
  match a with
  | Select qIdx oIdx =>
      match questions !! qIdx with
      | Some q =>
          if (oIdx <? length (options q))%nat
          then handleSelect (id q) (Z.of_nat oIdx) s
          else s
      | None => s
      end
  | Submit =>
      (* the button is rendered only while not submitted *)
      if submitted s || submit_disabled questions s then s
      else {| answers := answers s; submitted := true |}
  end.

Definition run (questions : list ExamQuestion) (s : State)
    (actions : list Action) : State :=
  fold_left (step questions) actions s.

(** Every question has an entry in [answers]. *)
Definition all_answered (questions : list ExamQuestion) (s : State) : Prop :=
  ∀ q, q ∈ questions → is_Some (answers s !! id q).

End ExamModal.

(** ** The KnowledgeGraph component *)

Module KnowledgeGraph.

Inductive Status : Type := locked | available | completed.

Record KnowledgeNode : Type := {
  id : jstring;
  group : Z;
  label : jstring;
  status : Status
}.

Record KnowledgeLink : Type := {
  source : jstring;
  target : jstring;
  value : Z
}.

Record KnowledgeGraphData : Type := {
  nodes : list KnowledgeNode;
  links : list KnowledgeLink
}.

(** [{ ...d }] *)
Definition copy_node (d : KnowledgeNode) : KnowledgeNode :=
  {| id := id d; group := group d; label := label d; status := status d |}.

Definition copy_link (d : KnowledgeLink) : KnowledgeLink :=
  {| source := source d; target := target d; value := value d |}.

(** What the effect hands to the layout library: the nodes given to
    [d3.forceSimulation] and the links given to [d3.forceLink], which
    looks nodes up by [d.id]. *)
Record LayoutInput : Type := {
  sim_nodes : list KnowledgeNode;
  sim_links : list KnowledgeLink
}.

(** The effect of the component, up to the creation of the simulation;
    [mounted] tells whether [svgRef.current] is set.  [None]: the effect
    returned before creating a simulation. *)
Definition layout_input (mounted : bool) (data : KnowledgeGraphData)
  : option LayoutInput :=
  if negb mounted || (length (nodes data) =? 0)%nat then None
  else
    let nodes := copy_node <$> nodes data in
    let links := copy_link <$> links data in
    Some {| sim_nodes := nodes; sim_links := links |}.

(** The node ids of a graph contain [i]. *)
Definition known (ns : list KnowledgeNode) (i : jstring) : bool :=
  bool_decide (i ∈ id <$> ns).

(** Both ends of the link are ids of nodes. *)
Definition resolvable (ns : list KnowledgeNode) (l : KnowledgeLink) : bool :=
  known ns (source l) && known ns (target l).

End KnowledgeGraph.

(** ** The App component *)

Module App.

Record CourseModule : Type := {
  id : jstring;
  title : jstring;
  topics : list jstring;
  learningObjectives : list jstring
}.

(** The state the lesson and audio handlers read and write.  [inFlight]
    holds the lesson requests that were sent and whose promise has not
    settled yet, each under the number it was issued with. *)
Record State : Type := {
  syllabusFile : option jstring;
  activeModule : option CourseModule;
  lessonContent : jstring;
  contentDepth : ContentDepth;
  loadingContent : bool;
  loadingAudio : bool;
  audioContextRef : option AudioContext;
  inFlight : list (nat * Request);
  issued : nat
}.

Definition initial : State :=
  {| syllabusFile := None; activeModule := None; lessonContent := [];
     contentDepth := STANDARD; loadingContent := false;
     loadingAudio := false; audioContextRef := None;
     inFlight := []; issued := 0 |}.

Definition setActiveModule (m : CourseModule) (s : State) : State :=
  {| syllabusFile := syllabusFile s; activeModule := Some m;
     lessonContent := lessonContent s; contentDepth := contentDepth s;
     loadingContent := loadingContent s; loadingAudio := loadingAudio s;
     audioContextRef := audioContextRef s;
     inFlight := inFlight s; issued := issued s |}.

Definition setLessonContent (c : jstring) (s : State) : State :=
  {| syllabusFile := syllabusFile s; activeModule := activeModule s;
     lessonContent := c; contentDepth := contentDepth s;
     loadingContent := loadingContent s; loadingAudio := loadingAudio s;
     audioContextRef := audioContextRef s;
     inFlight := inFlight s; issued := issued s |}.

Definition setContentDepth (d : ContentDepth) (s : State) : State :=
  {| syllabusFile := syllabusFile s; activeModule := activeModule s;
     lessonContent := lessonContent s; contentDepth := d;
     loadingContent := loadingContent s; loadingAudio := loadingAudio s;
     audioContextRef := audioContextRef s;
     inFlight := inFlight s; issued := issued s |}.

Definition setLoadingContent (b : bool) (s : State) : State :=
  {| syllabusFile := syllabusFile s; activeModule := activeModule s;
     lessonContent := lessonContent s; contentDepth := contentDepth s;
     loadingContent := b; loadingAudio := loadingAudio s;
     audioContextRef := audioContextRef s;
     inFlight := inFlight s; issued := issued s |}.

Definition setLoadingAudio (b : bool) (s : State) : State :=
  {| syllabusFile := syllabusFile s; activeModule := activeModule s;
     lessonContent := lessonContent s; contentDepth := contentDepth s;
     loadingContent := loadingContent s; loadingAudio := b;
     audioContextRef := audioContextRef s;
     inFlight := inFlight s; issued := issued s |}.

Definition setAudioContext (c : option AudioContext) (s : State) : State :=
  {| syllabusFile := syllabusFile s; activeModule := activeModule s;
     lessonContent := lessonContent s; contentDepth := contentDepth s;
     loadingContent := loadingContent s; loadingAudio := loadingAudio s;
     audioContextRef := c;
     inFlight := inFlight s; issued := issued s |}.

(** The call of [generateLessonContent] up to its [await]: the request
    goes out and stays in flight. *)
Definition send (r : Request) (s : State) : State :=
  {| syllabusFile := syllabusFile s; activeModule := activeModule s;
     lessonContent := lessonContent s; contentDepth := contentDepth s;
     loadingContent := loadingContent s; loadingAudio := loadingAudio s;
     audioContextRef := audioContextRef s;
     inFlight := inFlight s ++ [(issued s, r)]; issued := S (issued s) |}.

Definition settle (ticket : nat) (s : State) : State :=
  {| syllabusFile := syllabusFile s; activeModule := activeModule s;
     lessonContent := lessonContent s; contentDepth := contentDepth s;
     loadingContent := loadingContent s; loadingAudio := loadingAudio s;
     audioContextRef := audioContextRef s;
     inFlight := filter (fun p => p.1 ≠ ticket) (inFlight s);
     issued := issued s |}.

(** A string that is neither [null] nor empty. *)
Definition present (o : option jstring) : option jstring :=
  match o with
  | Some (c :: r) => Some (c :: r)
  | _ => None
  end.

(** The effect on [contentDepth]: it runs after a render in which the
    depth changed. *)
Definition depthEffect (s : State) : State :=
  match activeModule s, present (syllabusFile s) with
  | Some m, Some file =>
      send (lessonRequest file (title m) (topics m) (contentDepth s))
           (setLoadingContent true s)
  | _, _ => s
  end.

(** [handleModuleSelect], up to its [await]. *)
Definition handleModuleSelect (m : CourseModule) (s : State) : State :=
  let s1 := setLoadingContent true (setActiveModule m s) in
  match present (syllabusFile s) with
  | None => setLoadingContent false s1
  | Some file =>
      send (lessonRequest file (title m) (topics m) (contentDepth s)) s1
  end.

(** The continuation of a lesson request when its promise settles:
    [.then(setLessonContent)] and [.finally(() =>
    setLoadingContent(false))] in the effect, the rest of the [try]
    and the [finally] in [handleModuleSelect]. *)
Definition lessonSettled (ticket : nat) (reply : Reply) (s : State)
  : State :=
  if bool_decide (ticket ∈ (inFlight s).*1) then
    let s1 := settle ticket s in
    match lessonResult reply with
    | Ok content => setLoadingContent false (setLessonContent content s1)
    | Throw _ => setLoadingContent false s1
    end
  else s.

(** [playAudioTutor]; [reply] is how the speech request settles.  The
    button that runs it is disabled while [loadingAudio] is set, so two
    runs do not interleave, and the state in between is not shown: the
    run starts with [setLoadingAudio(true)] and ends, in [finally], with
    [setLoadingAudio(false)]. *)
Definition playAudioTutor (reply : Reply) (s : State) : State :=
  if is_nil (lessonContent s) then s
  else
    let textToRead := substring0 500 (lessonContent s) in
    match generateAudioLesson (fun _ => reply) textToRead with
    | Throw _ => setLoadingAudio false s
    | Ok audioBase64 =>
        match present audioBase64, audioContextRef s with
        | Some audioBase64, Some ctx =>
            match decodeAudioData audioBase64 ctx default_rate with
            | Some buffer =>
                setLoadingAudio false
                  (setAudioContext (Some (playAudioBuffer buffer ctx).1) s)
            | None => setLoadingAudio false s
            end
        | _, _ => setLoadingAudio false s
        end
    end.

Inductive Event : Type :=
| ClickDepth (d : ContentDepth)
| ClickModule (m : CourseModule)
| LessonSettled (ticket : nat) (reply : Reply)
| ClickAudio (reply : Reply)
| InitAudio (fresh : AudioContext)
| Elapse (dt : Q).

Definition step (s : State) (e : Event) : State :=
  match e with
  | ClickDepth d =>
      (* setting the state to the value it has does not render again *)
      if bool_decide (d = contentDepth s) then s
      else depthEffect (setContentDepth d s)
  | ClickModule m => handleModuleSelect m s
  | LessonSettled ticket reply => lessonSettled ticket reply s
  | ClickAudio reply =>
      if loadingAudio s then s else playAudioTutor reply s
  | InitAudio fresh =>
      match audioContextRef s with
      | None => setAudioContext (Some fresh) s
      | Some _ => s
      end
  | Elapse dt =>
      setAudioContext (elapse dt <$> audioContextRef s) s
  end.

Definition run (s : State) (events : list Event) : State :=
  fold_left step events s.

(** The sources started so far on the context of the session. *)
Definition started (s : State) : list Source :=
  match audioContextRef s with
  | Some ctx => sources ctx
  | None => []
  end.

(** The sources audible now. *)
Definition audible (s : State) : list Source :=
  match audioContextRef s with
  | Some ctx => playing ctx
  | None => []
  end.

End App.

(** ** The other helpers of src/services/geminiService.ts *)

Module DataUrl.

(** How the [FileReader] finishes: with an error, or with [reader.result],
    the data URL of the file. *)
Inductive FileRead : Type :=
| ReadFailed
| ReadDone (result : jstring).

Definition comma : N := ch ",".

(** [s.split(",")]: the pieces between the commas; [cur] holds the piece
    being read, latest code unit first. *)
Fixpoint split_comma (s cur : jstring) : list jstring :=
  match s with
  | [] => [rev cur]
  | c :: r =>
      if c =? comma then rev cur :: split_comma r []
      else split_comma r (c :: cur)
  end.

(** [fileToGenerativePart]: the promise rejects when the reader fails and
    resolves to [reader.result.split(",")[1]] otherwise, which is
    [undefined] ([None]) when the result has no comma. *)
Definition fileToGenerativePart (read : FileRead) : Result (option jstring) :=
  match read with
  | ReadFailed => Throw ServiceFailure
  | ReadDone result => Ok (split_comma result [] !! 1%nat)
  end.

End DataUrl.

Module Sidekick.

Inductive Role : Type := User | Model.

#[global] Instance Role_eq_dec : EqDecision Role.
Proof. solve_decision. Defined.

(** An entry of the history given to the chat: [{role, parts: [{text}]}]. *)
Record Turn : Type := {
  role : Role;
  turn_text : jstring
}.

Inductive Part : Type :=
| TextPart (text : jstring)
| InlineData (mimeType data : jstring).

(** What [chatWithSidekick] gives to [ai.chats.create] and to
    [chat.sendMessage]; of the system instruction the interpolated
    context is kept. *)
Record ChatRequest : Type := {
  chat_model : jstring;
  history : list Turn;
  contextShown : jstring;
  parts : list Part
}.

(** How the promise of [chat.sendMessage] settles; of the value it
    resolves to, the [response] property, which may be missing. *)
Inductive ChatReply : Type :=
| ChatRejected
| ChatResolved (response : option Response).

Definition ChatService := ChatRequest -> ChatReply.

Definition chatRequest (history : list Turn) (message context : jstring)
    (imagePart : option jstring) : ChatRequest :=
  {| chat_model := js "gemini-3-flash-preview";
     history := history;
     contextShown := substring0 5000 context;
     parts :=
       TextPart message ::
       match App.present imagePart with
       | Some data => [InlineData (js "image/jpeg") data]
       | None => []
       end |}.

Definition chat_placeholder : jstring := js "I couldn't understand that.".

(** Reading [.text] of a missing [response]. *)
Definition type_error : Error := ErrorMsg "TypeError".

(** [result.response.text || "I couldn't understand that."] *)
Definition chatResult (reply : ChatReply) : Result jstring :=
  match reply with
  | ChatRejected => Throw ServiceFailure
  | ChatResolved None => Throw type_error
  | ChatResolved (Some response) =>
      Ok match text response with
         | None | Some [] => chat_placeholder
         | Some t => t
         end
  end.

Definition chatWithSidekick (chat : ChatService)
    (history : list Turn) (message context : jstring)
    (imagePart : option jstring) : Result jstring :=
  chatResult (chat (chatRequest history message context imagePart)).

End Sidekick.

(** ** The option buttons of src/components/ExamModal.tsx *)

Module ExamView.
Import ExamModal.

(** The five looks of an option button: chosen or not while the exam is
    in progress; after submission the correct option (green), the chosen
    wrong one (red), any other (dimmed). *)
Inductive OptionStyle : Type :=
| Chosen | Plain | Green | Red | Dimmed.

#[global] Instance OptionStyle_eq_dec : EqDecision OptionStyle.
Proof. solve_decision. Defined.

(** The class computed for option [oIdx] of question [q]. *)
Definition optionStyle (s : State) (q : ExamQuestion) (oIdx : nat)
  : OptionStyle :=
  if negb (submitted s) then
    if bool_decide (answers s !! id q = Some (Z.of_nat oIdx))
    then Chosen else Plain
  else if bool_decide (Z.of_nat oIdx = correctAnswerIndex q) then Green
  else if bool_decide (answers s !! id q = Some (Z.of_nat oIdx)) then Red
  else Dimmed.

(** The looks of the buttons of [q], one per option. *)
Definition optionStyles (s : State) (q : ExamQuestion) : list OptionStyle :=
  imap (fun oIdx _ => optionStyle s q oIdx) (options q).

End ExamView.

(** ** The drag handlers of the KnowledgeGraph component *)

Module GraphDrag.

(** A node of the simulation: its position and, while it is dragged, the
    position it is fixed to ([null] is [None]).  The handlers only copy
    coordinates. *)
Record SimNode : Type := {
  x : Q;
  y : Q;
  fx : option Q;
  fy : option Q
}.

(** Of the simulation, what the handlers set: the alpha target and the
    number of times it was restarted. *)
Record Simulation : Type := {
  alphaTarget : Q;
  restarts : nat
}.

(** A drag event: [event.active] (the number of other gestures under way)
    and the pointer position [event.x], [event.y]. *)
Record DragEvent : Type := {
  active : nat;
  pointer_x : Q;
  pointer_y : Q
}.

Definition dragstarted (e : DragEvent) (sim : Simulation) (subject : SimNode)
  : Simulation * SimNode :=
  (if (active e =? 0)%nat
   then {| alphaTarget := Qmake 3 10; restarts := S (restarts sim) |}
   else sim,
   {| x := x subject; y := y subject;
      fx := Some (x subject); fy := Some (y subject) |}).

Definition dragged (e : DragEvent) (subject : SimNode) : SimNode :=
  {| x := x subject; y := y subject;
     fx := Some (pointer_x e); fy := Some (pointer_y e) |}.

Definition dragended (e : DragEvent) (sim : Simulation) (subject : SimNode)
  : Simulation * SimNode :=
  (if (active e =? 0)%nat
   then {| alphaTarget := 0; restarts := restarts sim |}
   else sim,
   {| x := x subject; y := y subject; fx := None; fy := None |}).

(** The [drag] events of a gesture, handled in turn.  (Between the
    events the simulation ticks, which is the library's part and moves
    the node; the handlers are followed here.) *)
Definition moved (moves : list DragEvent) (subject : SimNode) : SimNode :=
  fold_left (fun n e => dragged e n) moves subject.

End GraphDrag.

(** ** The upload handler of the App component *)

Module Upload.
Import DataUrl.

(** Where the run of [handleFileUpload] stands: not running, waiting for
    the file to be read, waiting for [parseSyllabus]. *)
Inductive Phase : Type := Idle | Reading | Parsing.

(** The state that [handleFileUpload] reads and writes; [alerts] counts
    the calls of [alert], [graphPending] the graph requests whose promise
    has not settled. *)
Record State : Type := {
  syllabusFile : option jstring;
  structure : option CourseStructure;
  graphData : option (KnowledgeGraphData json);
  loadingStructure : bool;
  alerts : nat;
  upload : Phase;
  graphPending : nat
}.

Definition initial : State :=
  {| syllabusFile := None; structure := None; graphData := None;
     loadingStructure := false; alerts := 0; upload := Idle;
     graphPending := 0 |}.

(** What the promise of [parseSyllabus] settles to, given how the service
    call settled: the argument of [parseSyllabus] goes into the request
    only. *)
Definition structureResult (reply : Reply) : Result CourseStructure :=
  parseSyllabus (fun _ => reply) [].

(** The same for [generateKnowledgeGraph]. *)
Definition graphResult (reply : Reply) : Result (KnowledgeGraphData json) :=
  generateKnowledgeGraph (fun _ => reply) [].

Inductive Screen : Type := UploadScreen | LoadingScreen | MainScreen.

(** The three returns of the component. *)
Definition screen (s : State) : Screen :=
  match structure s, loadingStructure s with
  | None, false => UploadScreen
  | _, true => LoadingScreen
  | Some _, false => MainScreen
  end.

(** The [catch] and the [finally] of [handleFileUpload]. *)
Definition uploadFailed (s : State) : State :=
  {| syllabusFile := syllabusFile s; structure := structure s;
     graphData := graphData s; loadingStructure := false;
     alerts := S (alerts s); upload := Idle;
     graphPending := graphPending s |}.

(** [handleFileUpload] for a chosen file, up to its first [await]. *)
Definition handleFileUpload (s : State) : State :=
  {| syllabusFile := syllabusFile s; structure := structure s;
     graphData := graphData s; loadingStructure := true;
     alerts := alerts s; upload := Reading;
     graphPending := graphPending s |}.

(** From the first [await] to the second. *)
Definition fileRead (read : FileRead) (s : State) : State :=
  match upload s with
  | Reading =>
      match fileToGenerativePart read with
      | Throw _ => uploadFailed s
      | Ok base64 =>
          {| syllabusFile := base64; structure := structure s;
             graphData := graphData s;
             loadingStructure := loadingStructure s;
             alerts := alerts s; upload := Parsing;
             graphPending := graphPending s |}
      end
  | _ => s
  end.

(** From the second [await] to the end. *)
Definition structureSettled (reply : Reply) (s : State) : State :=
  match upload s with
  | Parsing =>
      match structureResult reply with
      | Throw _ => uploadFailed s
      | Ok struct =>
          {| syllabusFile := syllabusFile s; structure := Some struct;
             graphData := graphData s; loadingStructure := false;
             alerts := alerts s; upload := Idle;
             graphPending := S (graphPending s) |}
      end
  | _ => s
  end.

(** [.then(setGraphData)] on the promise of the graph request. *)
Definition graphSettled (reply : Reply) (s : State) : State :=
  match graphPending s with
  | O => s
  | S n =>
      {| syllabusFile := syllabusFile s; structure := structure s;
         graphData :=
           match graphResult reply with
           | Ok g => Some g
           | Throw _ => graphData s
           end;
         loadingStructure := loadingStructure s;
         alerts := alerts s; upload := upload s; graphPending := n |}
  end.

Inductive Event : Type :=
| FileChosen
| FileLoaded (read : FileRead)
| StructureSettled (reply : Reply)
| GraphSettled (reply : Reply).

(** The file input is rendered on the upload screen only. *)
Definition step (s : State) (e : Event) : State :=
  match e with
  | FileChosen =>
      match screen s with
      | UploadScreen => handleFileUpload s
      | _ => s
      end
  | FileLoaded read => fileRead read s
  | StructureSettled reply => structureSettled reply s
  | GraphSettled reply => graphSettled reply s
  end.

Definition run (s : State) (events : list Event) : State :=
  fold_left step events s.

End Upload.

(** ** The exam button of the App component *)

Module ExamStart.

(** The state that [startExam] reads and writes, and the count of exam
    requests whose promise has not settled. *)
Record State : Type := {
  activeModule : option App.CourseModule;
  syllabusFile : option jstring;
  examQuestions : list json;
  showExam : bool;
  examPending : nat
}.

(** What the promise of [generateExam] settles to. *)
Definition examResult (reply : Reply) : Result (list json) :=
  generateExam (fun _ => reply) [] [].

(** [startExam] up to its [await]. *)
Definition startExam (s : State) : State :=
  match activeModule s, App.present (syllabusFile s) with
  | Some _, Some _ =>
      {| activeModule := activeModule s; syllabusFile := syllabusFile s;
         examQuestions := examQuestions s; showExam := showExam s;
         examPending := S (examPending s) |}
  | _, _ => s
  end.

(** [startExam] after its [await]. *)
Definition examSettled (reply : Reply) (s : State) : State :=
  match examPending s with
  | O => s
  | S n =>
      match examResult reply with
      | Ok questions =>
          {| activeModule := activeModule s; syllabusFile := syllabusFile s;
             examQuestions := questions; showExam := true;
             examPending := n |}
      | Throw _ =>
          {| activeModule := activeModule s; syllabusFile := syllabusFile s;
             examQuestions := examQuestions s; showExam := showExam s;
             examPending := n |}
      end
  end.

(** [onClose] of the modal. *)
Definition closeExam (s : State) : State :=
  {| activeModule := activeModule s; syllabusFile := syllabusFile s;
     examQuestions := examQuestions s; showExam := false;
     examPending := examPending s |}.

Inductive Event : Type :=
| ClickExam
| ExamSettled (reply : Reply)
| CloseExam.

Definition step (s : State) (e : Event) : State :=
  match e with
  | ClickExam => startExam s
  | ExamSettled reply => examSettled reply s
  | CloseExam => closeExam s
  end.

Definition run (s : State) (events : list Event) : State :=
  fold_left step events s.

End ExamStart.

(** ** The chat handlers of the App component *)

Module Chat.
Import DataUrl Sidekick.

Record Message : Type := {
  id : jstring;
  role : Role;
  content : jstring;
  timestamp : N
}.

(** The state that the chat handlers read and write; [inFlight] holds the
    chat requests that were sent and whose promise has not settled, each
    under the number it was issued with. *)
Record State : Type := {
  lessonContent : jstring;
  chatOpen : bool;
  chatHistory : list Message;
  chatInput : jstring;
  chatImage : option jstring;
  isChatting : bool;
  inFlight : list (nat * ChatRequest);
  issued : nat
}.

Definition initial : State :=
  {| lessonContent := []; chatOpen := false; chatHistory := [];
     chatInput := []; chatImage := None; isChatting := false;
     inFlight := []; issued := 0 |}.

(** [n.toString()] for a non-negative integer. *)
Definition toString (n : N) : jstring := js (pretty n).

(** [!chatImage] *)
Definition no_image (s : State) : bool :=
  match App.present (chatImage s) with
  | Some _ => false
  | None => true
  end.

Definition toTurn (h : Message) : Turn :=
  {| Sidekick.role := role h; turn_text := content h |}.

(** [handleSendMessage] up to its [await]; [now1] and [now2] are the
    values of the two calls of [Date.now()]. *)
Definition handleSendMessage (now1 now2 : N) (s : State) : State :=
  if is_nil (trim (chatInput s)) && no_image s then s
  else
    let userMsg :=
      {| id := toString now1; role := User; content := chatInput s;
         timestamp := now2 |} in
    let apiHistory := toTurn <$> chatHistory s in
    let context :=
      if is_nil (lessonContent s) then js "General Syllabus Context"
      else lessonContent s in
    {| lessonContent := lessonContent s; chatOpen := chatOpen s;
       chatHistory := chatHistory s ++ [userMsg];
       chatInput := []; chatImage := None; isChatting := true;
       inFlight :=
         inFlight s
         ++ [(issued s,
              chatRequest apiHistory (content userMsg) context (chatImage s))];
       issued := S (issued s) |}.

(** [handleSendMessage] after its [await]; [now1] and [now2] are the
    values of its two calls of [Date.now()]. *)
Definition chatSettled (ticket : nat) (reply : ChatReply) (now1 now2 : N)
    (s : State) : State :=
  if bool_decide (ticket ∈ (inFlight s).*1) then
    {| lessonContent := lessonContent s; chatOpen := chatOpen s;
       chatHistory :=
         match chatResult reply with
         | Ok responseText =>
             chatHistory s
             ++ [{| id := toString (now1 + 1); role := Model;
                    content := responseText; timestamp := now2 |}]
         | Throw _ => chatHistory s
         end;
       chatInput := chatInput s; chatImage := chatImage s;
       isChatting := false;
       inFlight := filter (fun p => p.1 <> ticket) (inFlight s);
       issued := issued s |}
  else s.

(** The text that [handleExplainSelection] puts into the input. *)
Definition explainPrompt (selection : jstring) : jstring :=
  js "Explain this specific part to me like I'm 5: "
  ++ [quote] ++ selection ++ [quote].

(** [handleExplainSelection]; [selection] is
    [window.getSelection()?.toString()]. *)
Definition handleExplainSelection (selection : option jstring) (s : State)
  : State :=
  match App.present selection with
  | None => s
  | Some selection =>
      {| lessonContent := lessonContent s; chatOpen := true;
         chatHistory := chatHistory s;
         chatInput := explainPrompt selection;
         chatImage := chatImage s; isChatting := isChatting s;
         inFlight := inFlight s; issued := issued s |}
  end.

Definition setChatImage (image : option jstring) (s : State) : State :=
  {| lessonContent := lessonContent s; chatOpen := chatOpen s;
     chatHistory := chatHistory s; chatInput := chatInput s;
     chatImage := image; isChatting := isChatting s;
     inFlight := inFlight s; issued := issued s |}.

Definition setChatInput (value : jstring) (s : State) : State :=
  {| lessonContent := lessonContent s; chatOpen := chatOpen s;
     chatHistory := chatHistory s; chatInput := value;
     chatImage := chatImage s; isChatting := isChatting s;
     inFlight := inFlight s; issued := issued s |}.

Definition setChatOpen (b : bool) (s : State) : State :=
  {| lessonContent := lessonContent s; chatOpen := b;
     chatHistory := chatHistory s; chatInput := chatInput s;
     chatImage := chatImage s; isChatting := isChatting s;
     inFlight := inFlight s; issued := issued s |}.

Definition setLessonContent (c : jstring) (s : State) : State :=
  {| lessonContent := c; chatOpen := chatOpen s;
     chatHistory := chatHistory s; chatInput := chatInput s;
     chatImage := chatImage s; isChatting := isChatting s;
     inFlight := inFlight s; issued := issued s |}.

(** [handleImageUpload] for a chosen file, once the file is read; a
    failed read leaves a rejected promise and nothing else. *)
Definition handleImageUpload (read : FileRead) (s : State) : State :=
  match fileToGenerativePart read with
  | Throw _ => s
  | Ok base64 => setChatImage base64 s
  end.

Inductive Event : Type :=
| Typed (value : jstring)
| ImageChosen (read : FileRead)
| ImageRemoved
| Selected (selection : option jstring)
| OpenChat (b : bool)
| LessonArrived (content : jstring)
| EnterPressed (now1 now2 : N)
| SendClicked (now1 now2 : N)
| ChatSettled (ticket : nat) (reply : ChatReply) (now1 now2 : N).

(** The Enter key runs [handleSendMessage] as it is; the button is
    disabled while [isChatting] or when there is neither input nor
    image. *)
Definition step (s : State) (e : Event) : State :=
  match e with
  | Typed value => setChatInput value s
  | ImageChosen read => handleImageUpload read s
  | ImageRemoved => setChatImage None s
  | Selected selection => handleExplainSelection selection s
  | OpenChat b => setChatOpen b s
  | LessonArrived content => setLessonContent content s
  | EnterPressed now1 now2 => handleSendMessage now1 now2 s
  | SendClicked now1 now2 =>
      if isChatting s || (is_nil (chatInput s) && no_image s) then s
      else handleSendMessage now1 now2 s
  | ChatSettled ticket reply now1 now2 => chatSettled ticket reply now1 now2 s
  end.

Definition run (s : State) (events : list Event) : State :=
  fold_left step events s.

End Chat.

(** * Vocabulary of the properties *)

(** ** Parsers *)

(** A parser that succeeds consumes at least one code unit. *)
Definition consumes {A} (p : parser A) : Prop :=
  forall s v rest, p s = Some (v, rest) -> (length rest < length s)%nat.

(** Above the bound that [JSON_parse] uses, the results of the three
    parsers on [s] do not depend on the fuel. *)
Definition fuel_free (s : jstring) : Prop :=
  (forall f f', (2 * length s + 1 <= f)%nat -> (2 * length s + 1 <= f')%nat ->
     parse_value f s = parse_value f' s)
  /\ (forall f f' acc,
       (2 * length s + 2 <= f)%nat -> (2 * length s + 2 <= f')%nat ->
       parse_elements f acc s = parse_elements f' acc s)
  /\ (forall f f' acc,
       (2 * length s + 2 <= f)%nat -> (2 * length s + 2 <= f')%nat ->
       parse_members f acc s = parse_members f' acc s).

(** ** Replies *)

(** A response text that does not parse, directly or once cleaned; an
    absent text counts as such. *)
Definition unparseable (t : option jstring) : Prop :=
  match t with
  | None => True
  | Some t => JSON_parse t = None /\ JSON_parse (cleaned t) = None
  end.

(** A reply that carries no parseable payload: the call failed, or the
    text is [unparseable]. *)
Definition failed (r : Reply) : Prop :=
  match r with
  | Rejected => True
  | Resolved response => unparseable (text response)
  end.

(** A service that settles every request the same way. *)
Definition constant_service (r : Reply) : Service := fun _ => r.

Definition text_reply (t : jstring) : Reply :=
  Resolved {| text := Some t; inlineData := None |}.

(** ** Fenced payloads *)

Definition tick : N := 96.

(** All code units of [ws] are white space. *)
Definition blank (ws : jstring) : Prop :=
  Forall (fun c => is_space c = true) ws.

(** [p] does not end in white space. *)
Definition tight_end (p : jstring) : Prop := trim_end p = p.

(** [p] neither begins nor ends with white space. *)
Definition tight (p : jstring) : Prop := trim_start p = p /\ trim_end p = p.

(** No fence marker begins inside [p] when [p] is followed by the
    closing marker: [p] holds no three backticks in a row and does not
    end in a backtick. *)
Fixpoint fence_free (p : jstring) : bool :=
  match p with
  | [] => true
  | _ :: r => negb (starts_with fence (p ++ fence)) && fence_free r
  end.

(** ** Sample streams and their base64 text *)

(** A 16-bit signed sample. *)
Definition int16 (x : Z) : Prop := (-32768 <= x < 32768)%Z.

(** A byte, as a code unit of a binary string. *)
Definition byte (c : N) : Prop := c < 256.

(** The byte stream of a sequence of samples: two bytes per sample, the
    low one first. *)
Definition pcm16le (samples : list Z) : jstring :=
  samples ≫= fun x => [Z.to_N (x mod 256); Z.to_N ((x / 256) mod 256)].

(** The float stored for a sample. *)
Definition scaled (x : Z) : Q := Qmake x 32768.

(** The standard base64 encoding (RFC 4648, with padding): the character
    of a sextet, the sextets of a byte stream, the padding, and the text
    ([btoa] of the binary string). *)
Definition b64char (v : N) : N :=
  if v <? 26 then v + 65
  else if v <? 52 then v + 71
  else if v <? 62 then v - 4
  else if v =? 62 then 43 else 47.

Fixpoint sextets_of (bs : list N) : list N :=
  match bs with
  | a :: b :: c :: r =>
      let n := (a * 256 + b) * 256 + c in
      n / 262144 :: (n / 4096) mod 64 :: (n / 64) mod 64 :: n mod 64
        :: sextets_of r
  | [a; b] =>
      let n := (a * 256 + b) * 4 in
      [n / 4096; (n / 64) mod 64; n mod 64]
  | [a] => let n := a * 16 in [n / 64; n mod 64]
  | [] => []
  end.

Definition padding (bs : list N) : jstring :=
  match (length bs mod 3)%nat with
  | 1%nat => [61; 61]
  | 2%nat => [61]
  | _ => []
  end.

Definition btoa (bs : list N) : jstring :=
  (b64char <$> sextets_of bs) ++ padding bs.

(** A context with the clock at zero that accepts rates from 3 kHz to
    768 kHz. *)
Definition fresh_context : AudioContext :=
  {| currentTime := 0;
     supportsRate := fun r => (3000 <=? r)%Z && (r <=? 768000)%Z;
     sources := [] |}.

(** Speech of four samples (0, the largest, the smallest, -1): one sixth
    of a millisecond. *)
Definition speech_reply : Reply :=
  Resolved {| text := None; inlineData := Some (js "AAD/fwCA//8=") |}.

(** ** The exam *)

Definition question_ids (questions : list ExamModal.ExamQuestion) : gset Z :=
  list_to_set (ExamModal.id <$> questions).

(** What holds of every state reached from the initial one: only
    questions of the list have an entry, and a submitted exam passed the
    gate. *)
Definition gate_inv (questions : list ExamModal.ExamQuestion)
    (s : ExamModal.State) : Prop :=
  dom (ExamModal.answers s) ⊆ question_ids questions
  /\ (ExamModal.submitted s = true ->
      ExamModal.submit_disabled questions s = false).

(** Five questions of four options each; the user picks the correct
    option for the first three and a wrong one for the last two, and
    submits. *)
Definition quiz_question (i c : Z) : ExamModal.ExamQuestion :=
  {| ExamModal.id := i; ExamModal.question := js "?";
     ExamModal.options := [js "a"; js "b"; js "c"; js "d"];
     ExamModal.correctAnswerIndex := c; ExamModal.explanation := [] |}.

Definition quiz : list ExamModal.ExamQuestion :=
  [quiz_question 1 0; quiz_question 2 3; quiz_question 3 1;
   quiz_question 4 2; quiz_question 5 0]%Z.

Definition quiz_picks : list ExamModal.Action :=
  [ExamModal.Select 0 0; ExamModal.Select 1 3; ExamModal.Select 2 1;
   ExamModal.Select 3 0; ExamModal.Select 4 1].

Definition quiz_run : ExamModal.State :=
  ExamModal.run quiz ExamModal.initial (quiz_picks ++ [ExamModal.Submit]).

(** Five other questions, shown in the same component after the first
    five were answered and the exam closed without submitting. *)
Definition second_quiz : list ExamModal.ExamQuestion :=
  [quiz_question 6 1; quiz_question 7 1; quiz_question 8 1;
   quiz_question 9 1; quiz_question 10 1]%Z.

(** ** The graph *)

(** A graph of one node with a link to an id that no node has. *)
Definition dangling_link : KnowledgeGraph.KnowledgeLink :=
  {| KnowledgeGraph.source := js "limits";
     KnowledgeGraph.target := js "series";
     KnowledgeGraph.value := 1 |}.

Definition dangling_graph : KnowledgeGraph.KnowledgeGraphData :=
  {| KnowledgeGraph.nodes :=
       [{| KnowledgeGraph.id := js "limits"; KnowledgeGraph.group := 1;
           KnowledgeGraph.label := js "Limits";
           KnowledgeGraph.status := KnowledgeGraph.available |}];
     KnowledgeGraph.links := [dangling_link] |}.

(** ** A session *)

Definition calculus_module : App.CourseModule :=
  {| App.id := js "m1"; App.title := js "Limits";
     App.topics := [js "continuity"]; App.learningObjectives := [] |}.

(** A syllabus was uploaded, the page was clicked, a module was selected
    and its lesson has arrived. *)
Definition session_with_lesson : App.State :=
  App.run
    {| App.syllabusFile := Some (js "JVBERi0="); App.activeModule := None;
       App.lessonContent := []; App.contentDepth := STANDARD;
       App.loadingContent := false; App.loadingAudio := false;
       App.audioContextRef := None; App.inFlight := []; App.issued := 0 |}
    [App.InitAudio fresh_context; App.ClickModule calculus_module;
     App.LessonSettled 0 (text_reply (js "# Limits"))].

(** Two changes of depth, then the reply to the second request, then
    the reply to the first. *)
Definition out_of_order_run : App.State :=
  App.run session_with_lesson
    [App.ClickDepth SUMMARY; App.ClickDepth DEEP_DIVE;
     App.LessonSettled 2 (text_reply (js "deep dive"));
     App.LessonSettled 1 (text_reply (js "summary"))].

(** Two playback requests, the second one frame after the first
    started. *)
Definition double_playback : App.State :=
  App.run session_with_lesson
    [App.ClickAudio speech_reply; App.Elapse (Qmake 1 24000);
     App.ClickAudio speech_reply].

(** ** Uploads *)

(** What holds of every state of the upload reached from the initial
    one: the loading screen is shown exactly while the handler runs; the
    handler runs only while there is no structure; before there is a
    structure no graph was requested; and at most one graph request is
    either in flight or answered. *)
Definition upload_inv (s : Upload.State) : Prop :=
  (Upload.loadingStructure s = true <-> Upload.upload s <> Upload.Idle)
  /\ (Upload.upload s <> Upload.Idle -> Upload.structure s = None)
  /\ (Upload.structure s = None ->
      Upload.graphData s = None /\ Upload.graphPending s = 0%nat)
  /\ (Upload.graphPending s
      + (if Upload.graphData s is Some _ then 1 else 0) <= 1)%nat.

(** A structure request answered with a course of no module. *)
Definition course_reply : Reply :=
  text_reply (jsq "{'title': 'Analysis', 'modules': []}").

Definition course : CourseStructure :=
  {| title := JString (js "Analysis"); description := JString [];
     modules := [] |}.

(** A service that answers the structure request with that course and
    every other request with prose. *)
Definition structure_only_service : Service :=
  fun r =>
    match instruction r with
    | ExtractStructure => course_reply
    | _ => text_reply (js "I cannot read this file.")
    end.

(** The data URL of a file of the four bytes [%PDF]. *)
Definition pdf_url : jstring := js "data:application/pdf;base64,JVBERg==".

(** A syllabus is chosen, read and parsed. *)
Definition upload_done : list Upload.Event :=
  [Upload.FileChosen; Upload.FileLoaded (DataUrl.ReadDone pdf_url);
   Upload.StructureSettled course_reply].

(** ** More of the exam *)

(** Two questions that were given the same id. *)
Definition twin_quiz : list ExamModal.ExamQuestion :=
  [quiz_question 1 0; quiz_question 1 1]%Z.

(** The exam button was pressed with a module and a syllabus at hand. *)
Definition exam_requested : ExamStart.State :=
  ExamStart.startExam
    {| ExamStart.activeModule := Some calculus_module;
       ExamStart.syllabusFile := Some (js "JVBERg==");
       ExamStart.examQuestions := []; ExamStart.showExam := false;
       ExamStart.examPending := 0 |}.

(** ** More of the audio *)

(** The buffer of the four samples of [speech_reply]. *)
Definition four_frames : AudioBuffer :=
  {| numberOfChannels := 1; frames := 4; sampleRate := 24000;
     channelData := scaled <$> [0; 32767; -32768; -1]%Z |}.

(** ** The chat *)

(** The messages of a role in a history. *)
Definition by_role (r : Sidekick.Role) (h : list Chat.Message)
  : list Chat.Message :=
  filter (fun m => Chat.role m = r) h.

(** The history that a request carries is the chat up to, and without,
    the message it was sent for. *)
Definition carries_earlier_turns (s : Chat.State) : Prop :=
  forall ticket req, (ticket, req) ∈ Chat.inFlight s ->
    Sidekick.history req `prefix_of` (Chat.toTurn <$> Chat.chatHistory s)
    /\ (length (Sidekick.history req) < length (Chat.chatHistory s))%nat.

(** A reply of the chat with no text. *)
Definition mute_reply : Sidekick.ChatReply :=
  Sidekick.ChatResolved (Some {| text := None; inlineData := None |}).

(** A first message is sent with Enter and, before its reply, a second
    one is typed. *)
Definition chat_awaiting : Chat.State :=
  Chat.run Chat.initial
    [Chat.Typed (js "hi"); Chat.EnterPressed 1 2; Chat.Typed (js "more")].

(** * Properties *)

(** Arithmetic with division by constants. *)
Ltac euclid := zify; Z.to_euclidean_division_equations; lia.

(** Case analysis on every comparison of the goal. *)
Ltac case_compare :=
  repeat match goal with
    | |- context [N.leb ?a ?b] => destruct (N.leb_spec a b)
    | |- context [N.ltb ?a ?b] => destruct (N.ltb_spec a b)
    | |- context [N.eqb ?a ?b] => destruct (N.eqb_spec a b)
    end.

(** ** The parser: consumption and fuel *)

Section JsonParser.

Lemma skip_ws_length (s : jstring) : (length (skip_ws s) <= length s)%nat.
Proof.
  induction s as [|c s IH]; [done|]. simpl. destruct (is_ws c); simpl; lia.
Qed.

Lemma skip_ws_cons_length (s r : jstring) (c : N) :
  skip_ws s = c :: r -> (length r < length s)%nat.
Proof.
  intros H. pose proof (skip_ws_length s) as Hl. rewrite H in Hl.
  simpl in Hl. lia.
Qed.

Lemma parse_chars_length (s acc str rest : jstring) :
  parse_chars s acc = Some (str, rest) -> (length rest < length s)%nat.
Proof.
  remember (length s) as n eqn:Hn. revert s acc Hn.
  induction n as [n IH] using lt_wf_ind. intros [|c r] acc ->;
    cbn [parse_chars]; [discriminate|].
  destruct (c =? quote). { intros [= _ <-]. simpl. lia. }
  destruct (c =? ch "\").
  - destruct r as [|e r1]; [discriminate|]. destruct (e =? ch "u").
    + destruct r1 as [|h1 [|h2 [|h3 [|h4 r2]]]]; try discriminate.
      destruct (hex_value h1), (hex_value h2), (hex_value h3), (hex_value h4);
        try discriminate.
      intros H. apply (IH (length r2) ltac:(simpl; lia) r2 _ eq_refl) in H.
      simpl. lia.
    + destruct (escape_value e); [|discriminate]. intros H.
      apply (IH (length r1) ltac:(simpl; lia) r1 _ eq_refl) in H.
      simpl. lia.
  - destruct (c <? 32); [discriminate|]. intros H.
    apply (IH (length r) ltac:(simpl; lia) r _ eq_refl) in H. simpl. lia.
Qed.

Lemma span_digits_length (s ds rest : jstring) :
  span_digits s = (ds, rest) -> (length rest <= length s)%nat.
Proof.
  revert ds rest. induction s as [|c s IH]; intros ds rest; simpl.
  - intros [= _ <-]. done.
  - destruct (is_digit c).
    + destruct (span_digits s) as [ds' rest'] eqn:E. intros [= _ <-].
      specialize (IH _ _ eq_refl). lia.
    + intros [= _ <-]. done.
Qed.

Lemma span_digits_nonempty (s ds rest : jstring) :
  span_digits s = (ds, rest) -> ds <> [] -> (length rest < length s)%nat.
Proof.
  destruct s as [|c s]; simpl.
  - by intros [= <- _].
  - destruct (is_digit c).
    + destruct (span_digits s) as [ds' rest'] eqn:E. intros [= _ <-] _.
      apply span_digits_length in E. lia.
    + by intros [= <- _].
Qed.

Lemma is_nil_false {A} (l : list A) : is_nil l = false -> l <> [].
Proof. by destruct l. Qed.

Lemma parse_number_length (s rest : jstring) (v : json) :
  parse_number s = Some (v, rest) -> (length rest < length s)%nat.
Proof.
  unfold parse_number.
  set (p1 := match s with c :: r => if c =? ch "-" then (true, r) else (false, s) | [] => (false, s) end).
  assert (H1 : (length p1.2 <= length s)%nat).
  { subst p1. destruct s as [|c r]; [done|]. destruct (c =? ch "-"); simpl; lia. }
  destruct p1 as [neg s1]. simpl in H1.
  set (p2 := match s1 with c :: r => if c =? ch "0" then ([c], r) else span_digits s1 | [] => ([], []) end).
  assert (H2 : is_nil p2.1 = false -> (length p2.2 < length s1)%nat).
  { subst p2. destruct s1 as [|c r]; [done|]. destruct (c =? ch "0").
    - simpl. lia.
    - destruct (span_digits (c :: r)) as [ds rest'] eqn:E. simpl.
      intros Hn. apply (span_digits_nonempty _ _ _ E). by apply is_nil_false. }
  destruct p2 as [int_ds s2]. simpl in H2.
  destruct (is_nil int_ds) eqn:Hint; [done|]. specialize (H2 eq_refl).
  set (frac := match s2 with c :: r => _ | [] => _ end).
  assert (H3 : forall fd s3, frac = Some (fd, s3) -> (length s3 <= length s2)%nat).
  { subst frac. intros fd s3. destruct s2 as [|c r]; [by intros [= _ <-]|].
    destruct (c =? ch ".").
    - destruct (span_digits r) as [ds rest'] eqn:E.
      destruct (is_nil ds); [done|]. intros [= _ <-].
      apply span_digits_length in E. simpl. lia.
    - by intros [= _ <-]. }
  destruct frac as [[frac_ds s3]|]; [|done]. specialize (H3 _ _ eq_refl).
  set (expo := match s3 with c :: r => _ | [] => _ end).
  assert (H4 : forall e s4, expo = Some (e, s4) -> (length s4 <= length s3)%nat).
  { subst expo. intros e s4. destruct s3 as [|c r]; [by intros [= _ <-]|].
    destruct ((c =? ch "e") || (c =? ch "E")).
    - set (p := match r with sg :: r' => _ | [] => _ end).
      assert (Hp : (length p.2 <= length r)%nat).
      { subst p. destruct r as [|sg r']; [done|].
        destruct (sg =? ch "-"); [simpl; lia|].
        destruct (sg =? ch "+"); simpl; lia. }
      destruct p as [eneg r1]. simpl in Hp.
      destruct (span_digits r1) as [ds rest'] eqn:E.
      destruct (is_nil ds); [done|]. intros [= _ <-].
      apply span_digits_length in E. simpl. lia.
    - by intros [= _ <-]. }
  destruct expo as [[e s4]|]; [|done]. specialize (H4 _ _ eq_refl).
  intros [= _ <-]. lia.
Qed.

Lemma parse_literal_length (s rest : jstring) (v : json) :
  parse_literal s = Some (v, rest) -> (length rest < length s)%nat.
Proof.
  unfold parse_literal.
  destruct s as [|c s]; [done|].
  destruct (starts_with (js "true") (c :: s));
    [intros [= _ <-]; rewrite length_drop; simpl; lia|].
  destruct (starts_with (js "false") (c :: s));
    [intros [= _ <-]; rewrite length_drop; simpl; lia|].
  destruct (starts_with (js "null") (c :: s));
    [intros [= _ <-]; rewrite length_drop; simpl; lia|done].
Qed.

Lemma value_body_consumes (elements members : parser json) :
  consumes elements -> consumes members ->
  consumes (value_body elements members).
Proof.
  intros He Hm s v rest. unfold value_body.
  destruct (skip_ws s) as [|c r] eqn:Hs; [done|].
  pose proof (skip_ws_cons_length _ _ _ Hs) as Hr.
  assert (Hsub : forall p : parser json, consumes p ->
            match skip_ws r with
            | c' :: r' =>
                if c' =? ch "}" then Some (JObject [], r') else p (c' :: r')
            | [] => None
            end = Some (v, rest) -> (length rest < length s)%nat).
  { intros p Hp. destruct (skip_ws r) as [|c' r'] eqn:Hr'; [done|].
    pose proof (skip_ws_length r) as Hl. rewrite Hr' in Hl. simpl in Hl.
    destruct (c' =? ch "}").
    - intros [= _ <-]. lia.
    - intros H. apply Hp in H. simpl in H. lia. }
  destruct (c =? ch "{"); [by apply Hsub|].
  destruct (c =? ch "[").
  { destruct (skip_ws r) as [|c' r'] eqn:Hr'; [done|].
    pose proof (skip_ws_length r) as Hl. rewrite Hr' in Hl. simpl in Hl.
    destruct (c' =? ch "]").
    - intros [= _ <-]. lia.
    - intros H. apply He in H. simpl in H. lia. }
  destruct (c =? quote).
  { destruct (parse_chars r []) as [[str rest']|] eqn:Hc; [|done].
    intros [= _ <-]. apply parse_chars_length in Hc. lia. }
  pose proof (skip_ws_length s) as Hl. rewrite Hs in Hl.
  destruct ((c =? ch "-") || is_digit c).
  - intros H. apply parse_number_length in H. lia.
  - intros H. apply parse_literal_length in H. lia.
Qed.

Lemma elements_body_consumes (value : parser json)
    (elements : list json -> parser json) (acc : list json) :
  consumes value -> (forall acc', consumes (elements acc')) ->
  consumes (elements_body value elements acc).
Proof.
  intros Hv He s v rest. unfold elements_body.
  destruct (value s) as [[w rest']|] eqn:Hw; [|done].
  apply Hv in Hw.
  destruct (skip_ws rest') as [|c r] eqn:Hs; [done|].
  apply skip_ws_cons_length in Hs.
  destruct (c =? ch ",").
  - intros H. apply He in H. lia.
  - destruct (c =? ch "]"); [|done]. intros [= _ <-]. lia.
Qed.

Lemma members_body_consumes (value : parser json)
    (members : list (jstring * json) -> parser json)
    (acc : list (jstring * json)) :
  consumes value -> (forall acc', consumes (members acc')) ->
  consumes (members_body value members acc).
Proof.
  intros Hv Hm s v rest. unfold members_body.
  destruct (skip_ws s) as [|q r0] eqn:Hs; [done|].
  apply skip_ws_cons_length in Hs.
  destruct (q =? quote); [|done].
  destruct (parse_chars r0 []) as [[key r1]|] eqn:Hk; [|done].
  apply parse_chars_length in Hk.
  destruct (skip_ws r1) as [|colon r2] eqn:Hc; [done|].
  apply skip_ws_cons_length in Hc.
  destruct (colon =? ch ":"); [|done].
  destruct (value r2) as [[w rest']|] eqn:Hw; [|done].
  apply Hv in Hw.
  destruct (skip_ws rest') as [|c r] eqn:Hs'; [done|].
  apply skip_ws_cons_length in Hs'.
  destruct (c =? ch ",").
  - intros H. apply Hm in H. lia.
  - destruct (c =? ch "}"); [|done]. intros [= _ <-]. lia.
Qed.

Lemma parse_consumes (fuel : nat) :
  consumes (parse_value fuel)
  /\ (forall acc, consumes (parse_elements fuel acc))
  /\ (forall acc, consumes (parse_members fuel acc)).
Proof.
  induction fuel as [|fuel (IHv & IHe & IHm)].
  - split_and!; [|intros acc..]; intros s v rest; done.
  - split_and!; [|intros acc..]; intros s v rest;
      cbn [parse_value parse_elements parse_members].
    + apply value_body_consumes; [apply IHe|apply IHm].
    + by apply elements_body_consumes.
    + by apply members_body_consumes.
Qed.

(** The bodies only call their arguments on shorter texts (the element
    and member parsers), or on the same text (the value parser inside
    [elements_body]). *)
Lemma value_body_ext (e e' m m' : parser json) (s : jstring) :
  (forall t, (length t < length s)%nat -> e t = e' t) ->
  (forall t, (length t < length s)%nat -> m t = m' t) ->
  value_body e m s = value_body e' m' s.
Proof.
  intros He Hm. unfold value_body.
  destruct (skip_ws s) as [|c r] eqn:Hs; [done|].
  apply skip_ws_cons_length in Hs.
  destruct (skip_ws r) as [|c' r'] eqn:Hr; [done|].
  pose proof (skip_ws_length r) as Hl. rewrite Hr in Hl.
  rewrite He, Hm by lia. done.
Qed.

Lemma elements_body_ext (v v' : parser json)
    (e e' : list json -> parser json) (acc : list json) (s : jstring) :
  v s = v' s -> consumes v ->
  (forall a t, (length t < length s)%nat -> e a t = e' a t) ->
  elements_body v e acc s = elements_body v' e' acc s.
Proof.
  intros Hv Hc He. unfold elements_body. rewrite <- Hv.
  destruct (v s) as [[w rest]|] eqn:Hw; [|done]. apply Hc in Hw.
  destruct (skip_ws rest) as [|c r] eqn:Hs; [done|].
  apply skip_ws_cons_length in Hs. rewrite He by lia. done.
Qed.

Lemma members_body_ext (v v' : parser json)
    (m m' : list (jstring * json) -> parser json)
    (acc : list (jstring * json)) (s : jstring) :
  (forall t, (length t < length s)%nat -> v t = v' t) -> consumes v ->
  (forall a t, (length t < length s)%nat -> m a t = m' a t) ->
  members_body v m acc s = members_body v' m' acc s.
Proof.
  intros Hv Hc Hm. unfold members_body.
  destruct (skip_ws s) as [|q r0] eqn:Hs; [done|].
  apply skip_ws_cons_length in Hs.
  destruct (q =? quote); [|done].
  destruct (parse_chars r0 []) as [[key r1]|] eqn:Hk; [|done].
  apply parse_chars_length in Hk.
  destruct (skip_ws r1) as [|colon r2] eqn:Hcol; [done|].
  apply skip_ws_cons_length in Hcol.
  destruct (colon =? ch ":"); [|done].
  rewrite <- Hv by lia.
  destruct (v r2) as [[w rest]|] eqn:Hw; [|done]. apply Hc in Hw.
  destruct (skip_ws rest) as [|c r] eqn:Hs'; [done|].
  apply skip_ws_cons_length in Hs'. rewrite Hm by lia. done.
Qed.

Lemma parse_fuel_free (s : jstring) : fuel_free s.
Proof.
  remember (length s) as n eqn:Hn. revert s Hn.
  induction n as [n IH] using lt_wf_ind. intros s ->.
  assert (Hshort : forall t, (length t < length s)%nat -> fuel_free t).
  { intros t Ht. by apply (IH (length t)). }
  clear IH.
  assert (Hv : forall f f',
            (2 * length s + 1 <= f)%nat -> (2 * length s + 1 <= f')%nat ->
            parse_value f s = parse_value f' s).
  { intros [|f] [|f'] Hf Hf'; [lia..|]. cbn [parse_value].
    apply value_body_ext; intros t Ht;
      destruct (Hshort t Ht) as (_ & He & Hm); [apply He|apply Hm]; lia. }
  split; [exact Hv|]. split.
  - intros [|f] [|f'] acc Hf Hf'; [lia..|]. cbn [parse_elements].
    apply elements_body_ext.
    + apply Hv; lia.
    + apply parse_consumes.
    + intros a t Ht. destruct (Hshort t Ht) as (_ & He & _). apply He; lia.
  - intros [|f] [|f'] acc Hf Hf'; [lia..|]. cbn [parse_members].
    apply members_body_ext.
    + intros t Ht. destruct (Hshort t Ht) as (Hv' & _ & _). apply Hv'; lia.
    + apply parse_consumes.
    + intros a t Ht. destruct (Hshort t Ht) as (_ & _ & Hm). apply Hm; lia.
Qed.

(** [JSON_parse] with any larger amount of fuel gives the same result. *)
Lemma JSON_parse_fuel (text : jstring) (fuel : nat) :
  (2 * length text + 2 <= fuel)%nat ->
  match parse_value fuel text with
  | Some (v, rest) => if is_nil (skip_ws rest) then Some v else None
  | None => None
  end = JSON_parse text.
Proof.
  intros Hf. unfold JSON_parse.
  destruct (parse_fuel_free text) as (Hv & _ & _).
  rewrite (Hv fuel (2 * length text + 2)%nat) by lia. done.
Qed.

End JsonParser.

(** ** The response normaliser and the three structured intents *)

Section Normalizer.

Variable ai : Service.

(** [safeParseJSON] written out: the direct parse, else one parse of the
    cleaned text, else [null]. *)
Lemma safeParseJSON_unfold (t : jstring) :
  safeParseJSON (Some t)
  = match JSON_parse t with
    | Some v => v
    | None =>
        match JSON_parse (cleaned t) with
        | Some v => v
        | None => JNull
        end
    end.
Proof. destruct t; reflexivity. Qed.

Lemma safeParseJSON_unparseable (t : option jstring) :
  unparseable t -> safeParseJSON t = JNull.
Proof.
  destruct t as [t|]; [|done]. intros [H1 H2].
  rewrite safeParseJSON_unfold, H1, H2. done.
Qed.

(** C5: each intent answers for its own reply.  When the reply to the
    structure request fails or its text does not parse even after the
    cleanup, [parseSyllabus] throws; when the reply to the graph request
    does, [generateKnowledgeGraph] returns the empty graph; when the
    reply to the exam request does, [generateExam] returns the empty
    sequence: whatever the replies to the other requests are. *)
Theorem malformed_response_by_intent
    (fileBase64 moduleTitle : jstring) :
  (failed (ai (structureRequest fileBase64)) ->
   exists e, parseSyllabus ai fileBase64 = Throw e)
  /\ (failed (ai (graphRequest fileBase64)) ->
      generateKnowledgeGraph ai fileBase64 = Ok empty_graph)
  /\ (failed (ai (examRequest fileBase64 moduleTitle)) ->
      generateExam ai fileBase64 moduleTitle = Ok []).
Proof.
  unfold parseSyllabus, generateKnowledgeGraph, generateExam, failed.
  split_and!.
  - intros H1.
    destruct (ai (structureRequest fileBase64)) as [|r]; [by eexists|].
    rewrite (safeParseJSON_unparseable _ H1). by eexists.
  - intros H2.
    destruct (ai (graphRequest fileBase64)) as [|r]; [done|].
    unfold graphOfResponse.
    by rewrite (safeParseJSON_unparseable _ H2).
  - intros H3.
    destruct (ai (examRequest fileBase64 moduleTitle)) as [|r]; [done|].
    unfold examOfResponse.
    by rewrite (safeParseJSON_unparseable _ H3).
Qed.

(** C4, as amended: when the payload of the structure request parses to
    a value that passes the [!parsed] test, [parseSyllabus] returns a
    course structure in which a missing title is "Untitled Course", a
    missing description is the empty string, and [modules] is the array
    of the payload when it is one and the empty sequence otherwise; when
    the value does not pass the test ([null], [false], zero, the empty
    string), no default is applied and [parseSyllabus] throws the parse
    failure. *)
Theorem parseSyllabus_defaults
    (fileBase64 : jstring) (response : Response) (parsed : json) :
  ai (structureRequest fileBase64) = Resolved response ->
  safeParseJSON (text response) = parsed ->
  (truthy parsed = true ->
   exists cs,
     parseSyllabus ai fileBase64 = Ok cs
     /\ (field (js "title") parsed = None ->
         title cs = JString (js "Untitled Course"))
     /\ (forall v, field (js "title") parsed = Some v -> truthy v = true ->
         title cs = v)
     /\ (field (js "description") parsed = None ->
         description cs = JString [])
     /\ (forall items, field (js "modules") parsed = Some (JArray items) ->
         modules cs = items)
     /\ ((forall items, field (js "modules") parsed <> Some (JArray items)) ->
         modules cs = []))
  /\ (truthy parsed = false ->
      parseSyllabus ai fileBase64 = Throw parse_failure).
Proof.
  intros Hai Hparsed. unfold parseSyllabus. rewrite Hai, Hparsed. split.
  - intros Htruthy. rewrite Htruthy. simpl.
    eexists. split; [reflexivity|]. simpl. repeat split.
    + by intros ->.
    + intros v -> Hv. simpl. by rewrite Hv.
    + by intros ->.
    + by intros items ->.
    + intros Hno. destruct (field (js "modules") parsed) as [[]|]; try done.
      by destruct (Hno items).
  - intros Hfalsy. by rewrite Hfalsy.
Qed.


End Normalizer.


(** A service that answers the structure request with a course and
    every other request with prose: the structure is returned, the graph
    and the exam come out empty.  With prose for the structure request
    too, [parseSyllabus] throws. *)
Lemma malformed_response_by_intent_witness :
  parseSyllabus structure_only_service (js "JVBERi0=") = Ok course
  /\ generateKnowledgeGraph structure_only_service (js "JVBERi0=")
     = Ok empty_graph
  /\ generateExam structure_only_service (js "JVBERi0=") (js "Limits")
     = Ok []
  /\ exists e,
       parseSyllabus
         (constant_service (text_reply (js "I cannot read this file.")))
         (js "JVBERi0=") = Throw e.
Proof.
  destruct (malformed_response_by_intent structure_only_service
              (js "JVBERi0=") (js "Limits")) as (_ & Hgraph & Hexam).
  destruct (malformed_response_by_intent
              (constant_service (text_reply (js "I cannot read this file.")))
              (js "JVBERi0=") (js "Limits")) as (Hstructure & _ & _).
  split_and!.
  - reflexivity.
  - apply Hgraph. split; vm_compute; reflexivity.
  - apply Hexam. split; vm_compute; reflexivity.
  - apply Hstructure. split; vm_compute; reflexivity.
Defined.

(** A payload with neither a title nor an array of modules. *)
Lemma parseSyllabus_defaults_witness :
  exists cs,
    parseSyllabus
      (constant_service
         (text_reply (jsq "{'description': 'Calculus I', 'modules': 7}")))
      (js "JVBERi0=")
      = Ok cs
    /\ title cs = JString (js "Untitled Course")
    /\ modules cs = [].
Proof.
  destruct (parseSyllabus_defaults
              (constant_service
                 (text_reply
                    (jsq "{'description': 'Calculus I', 'modules': 7}")))
              (js "JVBERi0=") _ _ eq_refl eq_refl)
    as [Hdefaults _].
  destruct (Hdefaults eq_refl)
    as (cs & Hcs & Htitle & _ & _ & _ & Hmods).
  exists cs. split; [exact Hcs|]. split.
  - apply Htitle. vm_compute. reflexivity.
  - apply Hmods. intros items. vm_compute. discriminate.
Defined.

(** Payloads that are valid JSON and hold neither a title nor modules,
    yet get no default: zero, [false], the empty string and [null] parse,
    do not pass the [!parsed] test, and the structure request throws. *)
Lemma falsy_payload_gets_no_defaults :
  (JSON_parse (js "0") = Some (JNumber false 0 0)
   /\ field (js "title") (JNumber false 0 0) = None
   /\ parseSyllabus (constant_service (text_reply (js "0"))) (js "JVBERi0=")
      = Throw parse_failure)
  /\ (JSON_parse (js "false") = Some (JBool false)
      /\ parseSyllabus (constant_service (text_reply (js "false")))
           (js "JVBERi0=")
         = Throw parse_failure)
  /\ (JSON_parse (jsq "''") = Some (JString [])
      /\ parseSyllabus (constant_service (text_reply (jsq "''")))
           (js "JVBERi0=")
         = Throw parse_failure)
  /\ (JSON_parse (js "null") = Some JNull
      /\ parseSyllabus (constant_service (text_reply (js "null")))
           (js "JVBERi0=")
         = Throw parse_failure).
Proof. vm_compute. repeat split. Qed.



(** ** Fenced payloads *)

Section Fences.


Lemma is_space_not_tick (c : N) : is_space c = true -> (tick =? c) = false.
Proof.
  intros H. destruct (N.eqb_spec tick c) as [<-|]; [|done].
  vm_compute in H. done.
Qed.

Lemma fence_eq : fence = [tick; tick; tick].
Proof. reflexivity. Qed.

Lemma fence_json_eq : fence_json = [tick; tick; tick; 106; 115; 111; 110].
Proof. reflexivity. Qed.

Lemma starts_with_cons (a b : N) (p s : jstring) :
  starts_with (a :: p) (b :: s) = (a =? b) && starts_with p s.
Proof. reflexivity. Qed.

Lemma starts_with_nil_r (a : N) (p : jstring) :
  starts_with (a :: p) [] = false.
Proof. reflexivity. Qed.

Lemma starts_with_fence_cons (c : N) (s : jstring) :
  (tick =? c) = false -> starts_with fence (c :: s) = false.
Proof. intros H. by rewrite fence_eq, starts_with_cons, H. Qed.

Lemma starts_with_fence_json (s : jstring) :
  starts_with fence s = false -> starts_with fence_json s = false.
Proof.
  rewrite fence_eq, fence_json_eq.
  destruct s as [|a [|b [|c s]]]; try done.
  rewrite !starts_with_cons.
  destruct (tick =? a); [|done]. destruct (tick =? b); [|done].
  destruct (tick =? c); done.
Qed.

Lemma blank_space_run (ws s : jstring) :
  blank ws -> space_run (ws ++ s) = (length ws + space_run s)%nat.
Proof.
  induction 1 as [|c ws Hc _ IH]; [done|]. simpl. by rewrite Hc, IH.
Qed.

Lemma blank_trim_start (ws s : jstring) :
  blank ws -> trim_start (ws ++ s) = trim_start s.
Proof. induction 1 as [|c ws Hc _ IH]; [done|]. simpl. by rewrite Hc. Qed.

Lemma remove_fences_skip (a b : jstring) :
  remove_fences (length a) (a ++ b) = remove_fences 0 b.
Proof. induction a as [|c a IH]; [done|]. simpl. exact IH. Qed.

Lemma remove_fences_skip_all (k : nat) (s : jstring) :
  (length s <= k)%nat -> remove_fences k s = [].
Proof.
  revert k. induction s as [|c s IH]; intros k Hk; [done|].
  simpl in *. destruct k as [|k]; [lia|]. apply IH. lia.
Qed.

(** Whatever follows a fence-free text, no marker begins at its first
    code unit. *)
Lemma fence_free_cons (c : N) (r : jstring) :
  fence_free (c :: r)
  = negb (starts_with fence ((c :: r) ++ fence)) && fence_free r.
Proof. reflexivity. Qed.

Lemma fence_free_head (c : N) (r u : jstring) :
  fence_free (c :: r) = true ->
  starts_with fence ((c :: r) ++ u) = false.
Proof.
  rewrite fence_free_cons. intros Hff.
  apply andb_true_iff in Hff as [Hff _].
  apply negb_true_iff in Hff. revert Hff. rewrite fence_eq.
  destruct r as [|a [|b r]]; simpl app; rewrite !starts_with_cons;
    destruct (tick =? c); try done;
    try (destruct (tick =? a); try done);
    try (destruct (tick =? b); try done).
Qed.

Lemma fence_free_tail (c : N) (r : jstring) :
  fence_free (c :: r) = true -> fence_free r = true.
Proof.
  rewrite fence_free_cons. intros H. by apply andb_true_iff in H as [_ H].
Qed.

Lemma tight_end_tail (c : N) (r : jstring) :
  tight_end (c :: r) -> tight_end r /\ (is_space c = true -> r <> []).
Proof.
  unfold tight_end. simpl.
  destruct (is_space c && is_nil (trim_end r)) eqn:H; [done|].
  intros [= Hr]. split; [done|]. intros Hc ->. by rewrite Hc in H.
Qed.

(** After the leading blanks of a fence-free, tight text no marker
    begins either. *)
Lemma fence_free_after_blanks (r u : jstring) :
  fence_free r = true -> tight_end r -> r <> [] ->
  starts_with fence (drop (space_run (r ++ u)) (r ++ u)) = false.
Proof.
  induction r as [|a r IH]; [done|]. intros Hff Ht _.
  simpl. destruct (is_space a) eqn:Ha.
  - destruct (tight_end_tail _ _ Ht) as [Ht' Hne].
    simpl. apply IH; [by eapply fence_free_tail|done|by apply Hne].
  - simpl. by apply (fence_free_head a r u).
Qed.

(** Inside a fence-free, tight text the pattern matches nowhere. *)
Lemma fence_match_inside (c : N) (r u : jstring) :
  fence_free (c :: r) = true -> tight_end (c :: r) ->
  fence_match ((c :: r) ++ u) = 0%nat.
Proof.
  intros Hff Ht. unfold fence_match.
  rewrite (starts_with_fence_json _ (fence_free_head c r u Hff)).
  by rewrite (fence_free_after_blanks (c :: r) u Hff Ht).
Qed.

(** The pattern matches the blanks before the closing marker together
    with the marker. *)
Lemma fence_match_closing (ws : jstring) :
  blank ws -> fence_match (ws ++ fence) = (length ws + 3)%nat.
Proof.
  intros Hws. unfold fence_match.
  assert (starts_with fence_json (ws ++ fence) = false) as ->.
  { destruct Hws as [|x ws Hx Hws]; [done|].
    rewrite fence_json_eq. simpl app. rewrite starts_with_cons.
    by rewrite (is_space_not_tick _ Hx). }
  rewrite (blank_space_run _ _ Hws). simpl space_run.
  rewrite Nat.add_0_r, drop_app_length. done.
Qed.

(** The global replacement on a fence-free, tight payload followed by
    blanks and the closing marker leaves the payload. *)
Lemma remove_fences_payload (p ws : jstring) :
  fence_free p = true -> tight_end p -> blank ws ->
  remove_fences 0 (p ++ ws ++ fence) = p.
Proof.
  intros Hff Ht Hws. induction p as [|c r IH].
  - simpl app.
    pose proof (fence_match_closing ws Hws) as Hm.
    destruct (ws ++ fence) as [|x s] eqn:Hs.
    { by destruct ws. }
    simpl. rewrite Hm. rewrite Nat.add_comm. simpl.
    apply remove_fences_skip_all.
    apply (f_equal length) in Hs. rewrite length_app in Hs.
    simpl in Hs. lia.
  - pose proof (fence_match_inside c r (ws ++ fence) Hff Ht) as Hm.
    rewrite <- app_comm_cons in *. simpl. rewrite Hm.
    f_equal. apply IH; [by eapply fence_free_tail|].
    by destruct (tight_end_tail _ _ Ht).
Qed.

Lemma remove_fences_match (s : jstring) (k : nat) :
  fence_match s = S k -> remove_fences 0 s = remove_fences (S k) s.
Proof. intros H. destruct s as [|c r]; [done|]. simpl. by rewrite H. Qed.

Lemma starts_with_app (p s : jstring) : starts_with p (p ++ s) = true.
Proof.
  induction p as [|a p IH]; [done|].
  simpl app. by rewrite starts_with_cons, N.eqb_refl, IH.
Qed.

Lemma is_space_neq (k c : N) :
  is_space k = false -> is_space c = true -> (k =? c) = false.
Proof. intros Hk Hc. destruct (N.eqb_spec k c) as [->|]; congruence. Qed.

Lemma tight_trim (p : jstring) : tight p -> trim p = p.
Proof. intros [H1 H2]. unfold trim. by rewrite H1. Qed.

Lemma tight_head (p : jstring) :
  tight p -> p <> [] -> exists c r, p = c :: r /\ is_space c = false.
Proof.
  intros [H _] Hne. destruct p as [|c r]; [done|]. exists c, r.
  split; [done|]. simpl in H. destruct (is_space c) eqn:Hc; [|done].
  (* the trimmed text is shorter *)
  exfalso. assert (Hlen : forall s, (length (trim_start s) <= length s)%nat).
  { induction s as [|x s IH]; [done|]. simpl.
    destruct (is_space x); simpl; lia. }
  specialize (Hlen r). rewrite H in Hlen. simpl in Hlen. lia.
Qed.

Lemma blank_fence_free (ws p : jstring) :
  blank ws -> fence_free p = true -> fence_free (ws ++ p) = true.
Proof.
  intros Hws Hp. induction Hws as [|x ws Hx _ IH]; [done|].
  simpl app. rewrite fence_free_cons, IH, andb_true_r.
  apply negb_true_iff. simpl app.
  by apply starts_with_fence_cons, is_space_not_tick.
Qed.

Lemma blank_tight_end (ws p : jstring) :
  tight_end p -> p <> [] -> tight_end (ws ++ p).
Proof.
  unfold tight_end. intros Hp Hne. induction ws as [|x ws IH]; [done|].
  simpl. rewrite IH. destruct (ws ++ p) eqn:E.
  - by destruct ws.
  - by rewrite andb_false_r.
Qed.

(** No JSON text begins with a backtick or with the letter j. *)
Lemma JSON_parse_tick (s : jstring) : JSON_parse (tick :: s) = None.
Proof. reflexivity. Qed.

Lemma JSON_parse_j (s : jstring) : JSON_parse (106 :: s) = None.
Proof. reflexivity. Qed.

Lemma JSON_parse_nil : JSON_parse [] = None.
Proof. reflexivity. Qed.

(** The cleanup of a payload wrapped in markers gives back the payload. *)
Lemma cleaned_fenced (opening ws1 payload ws2 : jstring) (v : json) :
  opening = fence \/ opening = fence_json ->
  blank ws1 -> blank ws2 ->
  tight payload -> fence_free payload = true ->
  JSON_parse payload = Some v ->
  cleaned (opening ++ ws1 ++ payload ++ ws2 ++ fence) = payload.
Proof.
  intros Hop H1 H2 Ht Hff Hv.
  assert (Hne : payload <> []) by (intros ->; by rewrite JSON_parse_nil in Hv).
  destruct (tight_head _ Ht Hne) as (c & r & -> & Hc).
  unfold cleaned. destruct Hop as [-> | ->].
  - (* the bare marker: the second alternative matches it alone *)
    assert (Hj : starts_with fence_json
                   (fence ++ ws1 ++ (c :: r) ++ ws2 ++ fence) = false).
    { rewrite fence_eq, fence_json_eq. simpl app.
      rewrite !starts_with_cons, !N.eqb_refl, !andb_true_l.
      destruct H1 as [|x ws1 Hx H1]; simpl app; rewrite starts_with_cons.
      - destruct (N.eqb_spec 106 c) as [<-|]; [|done].
        by rewrite JSON_parse_j in Hv.
      - by rewrite (is_space_neq 106 x). }
    rewrite (remove_fences_match _ 2).
    2:{ unfold fence_match. rewrite Hj. rewrite fence_eq at 1. simpl app.
        simpl space_run. rewrite fence_eq. simpl drop.
        by rewrite !starts_with_cons, !N.eqb_refl. }
    change 3%nat with (length fence).
    rewrite remove_fences_skip, (app_assoc ws1).
    rewrite remove_fences_payload; [| |by apply blank_tight_end; [apply Ht|]|done].
    2:{ by apply blank_fence_free. }
    unfold trim. rewrite blank_trim_start by done.
    destruct Ht as [-> ->]. done.
  - (* the marker with its tag: the first alternative takes it and the
       blanks after it *)
    rewrite (remove_fences_match _ (6 + length ws1)).
    2:{ unfold fence_match. rewrite starts_with_app.
        change 7%nat with (length fence_json) at 2.
        rewrite drop_app_length, blank_space_run by done.
        simpl space_run. rewrite Hc. lia. }
    replace (S (6 + length ws1)) with (length (fence_json ++ ws1))
      by (rewrite length_app; reflexivity).
    rewrite (app_assoc fence_json), remove_fences_skip.
    rewrite remove_fences_payload; [|done|apply Ht|done].
    by apply tight_trim.
Qed.

(** C3, as amended: [safeParseJSON] returns [null] for an absent text;
    otherwise the value of the direct parse, else the value of one parse
    of the cleaned text, else [null].  For a text made of an opening
    marker (three backticks, bare or tagged json) at its very start,
    blanks, a payload that is valid JSON and fence-free, blanks and the
    closing marker, the direct parse fails, the cleaned text is the
    payload, and the result is the value of the payload. *)
Theorem safeParseJSON_fenced
    (opening ws1 payload ws2 : jstring) (v : json) :
  opening = fence \/ opening = fence_json ->
  blank ws1 -> blank ws2 ->
  tight payload -> fence_free payload = true ->
  JSON_parse payload = Some v ->
  safeParseJSON None = JNull
  /\ (forall t, safeParseJSON (Some t)
                = match JSON_parse t with
                  | Some w => w
                  | None =>
                      match JSON_parse (cleaned t) with
                      | Some w => w
                      | None => JNull
                      end
                  end)
  /\ JSON_parse (opening ++ ws1 ++ payload ++ ws2 ++ fence) = None
  /\ JSON_parse (cleaned (opening ++ ws1 ++ payload ++ ws2 ++ fence))
     = Some v
  /\ safeParseJSON (Some (opening ++ ws1 ++ payload ++ ws2 ++ fence)) = v.
Proof.
  intros Hop H1 H2 Ht Hff Hv.
  assert (Hdirect :
    JSON_parse (opening ++ ws1 ++ payload ++ ws2 ++ fence) = None).
  { destruct Hop as [-> | ->]; apply JSON_parse_tick. }
  pose proof (cleaned_fenced _ _ _ _ _ Hop H1 H2 Ht Hff Hv) as Hclean.
  split_and!; [done|apply safeParseJSON_unfold|done|by rewrite Hclean|].
  by rewrite safeParseJSON_unfold, Hdirect, Hclean, Hv.
Qed.

End Fences.

(** A payload in a fence tagged json, on lines of its own. *)
Lemma safeParseJSON_fenced_witness :
  safeParseJSON
    (Some (fence_json ++ [10] ++ jsq "{'title': 'Algebra'}" ++ [10] ++ fence))
  = JObject [(js "title", JString (js "Algebra"))].
Proof.
  refine (proj2 (proj2 (proj2 (proj2
    (safeParseJSON_fenced fence_json [10] (jsq "{'title': 'Algebra'}") [10]
       (JObject [(js "title", JString (js "Algebra"))]) _ _ _ _ _ _))))).
  - right. reflexivity.
  - repeat constructor.
  - repeat constructor.
  - split; reflexivity.
  - reflexivity.
  - reflexivity.
Defined.

(** A valid payload wrapped in a fence with another language tag: the tag
    stays in the cleaned text, the second parse fails and the result is
    [null]. *)
Lemma fenced_with_other_tag_is_null :
  JSON_parse (jsq "{'title': 'Algebra'}")
    = Some (JObject [(js "title", JString (js "Algebra"))])
  /\ cleaned (js "```js" ++ [10] ++ jsq "{'title': 'Algebra'}" ++ [10] ++ fence)
     = js "js" ++ [10] ++ jsq "{'title': 'Algebra'}"
  /\ JSON_parse
       (cleaned
          (js "```js" ++ [10] ++ jsq "{'title': 'Algebra'}" ++ [10] ++ fence))
     = None
  /\ safeParseJSON
       (Some (js "```js" ++ [10] ++ jsq "{'title': 'Algebra'}" ++ [10] ++ fence))
     = JNull.
Proof. vm_compute. repeat split. Qed.

(** A blank before the opening marker: the second alternative of the
    pattern takes the blank with the three backticks, the tag stays, and
    the result is [null] as well. *)
Example fenced_after_blank_is_null :
  cleaned (js " ```json" ++ [10] ++ jsq "{'title': 'Algebra'}" ++ [10] ++ fence)
    = js "json" ++ [10] ++ jsq "{'title': 'Algebra'}"
  /\ safeParseJSON
       (Some (js " ```json" ++ [10] ++ jsq "{'title': 'Algebra'}"
                ++ [10] ++ fence))
     = JNull.
Proof. vm_compute. repeat split. Qed.


(** ** Base64 *)

Section Base64.

Lemma b64char_cases (v : N) :
  65 <= b64char v <= 90 \/ 97 <= b64char v <= 122 \/ 48 <= b64char v <= 57
  \/ b64char v = 43 \/ b64char v = 47.
Proof. unfold b64char. case_compare; lia. Qed.

Lemma b64char_not_ws (v : N) : is_ascii_ws (b64char v) = false.
Proof.
  pose proof (b64char_cases v) as H. unfold is_ascii_ws.
  repeat (rewrite (proj2 (N.eqb_neq _ _)) by lia). done.
Qed.

Lemma b64char_not_pad (v : N) : (b64char v =? 61) = false.
Proof. pose proof (b64char_cases v). apply N.eqb_neq. lia. Qed.

Lemma sextet_b64char (v : N) : v < 64 -> sextet (b64char v) = Some v.
Proof.
  intros Hv. unfold b64char, sextet.
  change (ch "+") with 43. change (ch "/") with 47.
  case_compare; simpl; first [lia | f_equal; lia].
Qed.

(** Induction on a byte stream three bytes at a time. *)
Lemma bytes_ind3 (P : list N -> Prop) :
  P [] -> (forall a, P [a]) -> (forall a b, P [a; b]) ->
  (forall a b c r, P r -> P (a :: b :: c :: r)) ->
  forall bs, P bs.
Proof.
  intros H0 H1 H2 H3 bs.
  remember (length bs) as n eqn:Hn. revert bs Hn.
  induction n as [n IH] using lt_wf_ind. intros [|a [|b [|c r]]] ->; auto.
  apply H3. apply (IH (length r)); [simpl; lia|done].
Qed.

Lemma sextets_of_small (bs : list N) :
  Forall byte bs -> Forall (fun v => v < 64) (sextets_of bs).
Proof.
  unfold byte. induction bs as [|a|a b|a b c r IH] using bytes_ind3;
    intros H; cbn [sextets_of].
  - constructor.
  - inversion_clear H. repeat constructor; euclid.
  - inversion_clear H as [|? ? ? H']. inversion_clear H'.
    repeat constructor; euclid.
  - inversion_clear H as [|? ? ? H']. inversion_clear H' as [|? ? ? H''].
    inversion_clear H''. repeat (constructor; [euclid|]). by apply IH.
Qed.

Lemma decode_sextets_of (bs : list N) :
  Forall byte bs -> decode_sextets (sextets_of bs) = bs.
Proof.
  unfold byte. induction bs as [|a|a b|a b c r IH] using bytes_ind3;
    intros H; cbn [sextets_of decode_sextets].
  - done.
  - inversion_clear H. f_equal. euclid.
  - inversion_clear H as [|? ? ? H']. inversion_clear H'.
    f_equal; [euclid|]. f_equal. euclid.
  - inversion_clear H as [|? ? ? H']. inversion_clear H' as [|? ? ? H''].
    inversion_clear H''. rewrite IH by done.
    f_equal; [euclid|]. f_equal; [euclid|]. f_equal. euclid.
Qed.

Lemma padding_step (a b c : N) (r : list N) :
  padding (a :: b :: c :: r) = padding r.
Proof.
  unfold padding. simpl length.
  replace (S (S (S (length r)))) with (length r + 1 * 3)%nat by lia.
  by rewrite Nat.Div0.mod_add.
Qed.

(** The sextets and the padding fill whole groups of four; the sextets
    alone never leave a single one over. *)
Lemma btoa_length (bs : list N) :
  ((length (sextets_of bs) + length (padding bs)) mod 4 = 0)%nat
  /\ (length (sextets_of bs) mod 4 <> 1)%nat.
Proof.
  induction bs as [|a|a b|a b c r [H1 H2]] using bytes_ind3;
    [by compute..|].
  rewrite padding_step. cbn [sextets_of length]. split.
  - replace (S (S (S (S (length (sextets_of r))))) + length (padding r))%nat
      with ((length (sextets_of r) + length (padding r)) + 1 * 4)%nat by lia.
    by rewrite Nat.Div0.mod_add.
  - replace (S (S (S (S (length (sextets_of r))))))
      with (length (sextets_of r) + 1 * 4)%nat by lia.
    by rewrite Nat.Div0.mod_add.
Qed.

Lemma padding_cases (bs : list N) :
  padding bs = [] \/ padding bs = [61] \/ padding bs = [61; 61].
Proof.
  unfold padding. destruct (length bs mod 3)%nat as [|[|[|n]]]; auto.
Qed.

Lemma strip_padding_body (body pad : jstring) :
  (length (body ++ pad) mod 4 = 0)%nat ->
  Forall (fun c => (c =? 61) = false) body ->
  pad = [] \/ pad = [61] \/ pad = [61; 61] ->
  strip_padding (body ++ pad) = body.
Proof.
  intros Hlen Hbody Hpad. unfold strip_padding.
  rewrite Hlen. change (0 =? 0)%nat with true. cbv iota.
  rewrite rev_app_distr. change (ch "=") with 61.
  assert (Hlast : forall a r, rev body = a :: r -> (a =? 61) = false).
  { intros a r Hr. rewrite Forall_forall in Hbody. apply Hbody.
    apply list_elem_of_In, in_rev. rewrite Hr. by left. }
  destruct Hpad as [-> | [-> | ->]]; simpl.
  - rewrite app_nil_r. destruct (rev body) as [|a r] eqn:Hr; [done|].
    by rewrite (Hlast a r).
  - destruct (rev body) as [|b r] eqn:Hr.
    + simpl. apply (f_equal (@rev N)) in Hr. rewrite rev_involutive in Hr.
      by rewrite Hr.
    + rewrite (Hlast b r) by done. by rewrite <- Hr, rev_involutive.
  - by rewrite rev_involutive.
Qed.

Lemma mapM_sextet (l : list N) :
  Forall (fun v => v < 64) l -> mapM sextet (b64char <$> l) = Some l.
Proof.
  induction 1 as [|v l Hv _ IH]; [done|].
  rewrite fmap_cons. simpl. rewrite (sextet_b64char v Hv). simpl.
  by rewrite IH.
Qed.

Lemma filter_keeps_all {A} (P : A -> Prop) `{!forall x, Decision (P x)}
    (l : list A) :
  Forall P l -> filter P l = l.
Proof.
  induction 1 as [|x l Hx _ IH]; [done|].
  by rewrite filter_cons_True, IH.
Qed.

Lemma btoa_not_ws (bs : list N) :
  Forall (fun c => is_ascii_ws c = false) (btoa bs).
Proof.
  unfold btoa. apply Forall_app. split.
  - apply Forall_fmap, Forall_true. intros v. apply b64char_not_ws.
  - destruct (padding_cases bs) as [-> | [-> | ->]]; repeat constructor.
Qed.

(** [atob] undoes the standard encoding. *)
Lemma atob_btoa (bs : list N) : Forall byte bs -> atob (btoa bs) = Some bs.
Proof.
  intros Hbs. unfold atob.
  rewrite (filter_keeps_all _ _ (btoa_not_ws bs)). unfold btoa.
  destruct (btoa_length bs) as [Hlen Hrest].
  rewrite strip_padding_body.
  - rewrite length_fmap.
    destruct (Nat.eqb_spec (length (sextets_of bs) mod 4) 1); [done|].
    rewrite mapM_sextet by (by apply sextets_of_small). simpl.
    by rewrite decode_sextets_of.
  - by rewrite length_app, length_fmap.
  - apply Forall_fmap, Forall_true. intros v. apply b64char_not_pad.
  - apply padding_cases.
Qed.

End Base64.

(** ** Audio decoding *)

Section Audio.

Lemma int16_bytes (x : Z) :
  int16 x ->
  let lo := to_uint8 (Z.to_N (x mod 256)) in
  let hi := to_uint8 (Z.to_N ((x / 256) mod 256)) in
  let u := (lo + 256 * hi)%Z in
  (if (u <? 32768)%Z then u else (u - 65536)%Z) = x.
Proof.
  unfold int16, to_uint8. intros Hx.
  rewrite !Z2N.id by (apply Z.mod_pos_bound; lia).
  rewrite !Z.mod_mod by lia. cbv zeta.
  destruct (Z.ltb_spec (x mod 256 + 256 * ((x / 256) mod 256)) 32768);
    Z.div_mod_to_equations; lia.
Qed.

(** The 16-bit view of the bytes of a stream gives the samples back. *)
Lemma int16_view_pcm16le (samples : list Z) :
  Forall int16 samples ->
  int16_view (to_uint8 <$> pcm16le samples) = Some samples.
Proof.
  induction 1 as [|x xs Hx _ IH]; [done|].
  unfold pcm16le in *. rewrite bind_cons, fmap_app. simpl.
  rewrite IH. simpl. f_equal. f_equal. by apply int16_bytes.
Qed.

Lemma pcm16le_bytes (samples : list Z) : Forall byte (pcm16le samples).
Proof.
  unfold pcm16le, byte. induction samples as [|x xs IH]; [constructor|].
  rewrite bind_cons. apply Forall_app. split; [|exact IH].
  repeat constructor; euclid.
Qed.

(** The loop overwrites the silent frames from index [length done_] on,
    one per sample. *)
Lemma fill_channel_spec (samples : list Z) (done_ : list Q) :
  fill_channel (length done_) samples
    (done_ ++ replicate (length samples) 0%Q)
  = done_ ++ (scaled <$> samples).
Proof.
  revert done_. induction samples as [|x xs IH]; intros done_; [done|].
  simpl. rewrite insert_app_r_alt by lia. rewrite Nat.sub_diag. simpl.
  specialize (IH (done_ ++ [scaled x])).
  rewrite length_app, Nat.add_1_r, <- !app_assoc in IH. exact IH.
Qed.


(** What [decodeAudioData] computes from a text that decodes to the
    bytes of a stream, at any rate: the buffer that [createBuffer]
    returns, filled with the scaled samples. *)
Lemma decodeAudioData_samples
    (base64String : jstring) (ctx : AudioContext) (rate : Z)
    (samples : list Z) :
  atob base64String = Some (pcm16le samples) ->
  Forall int16 samples ->
  decodeAudioData base64String ctx rate
  = if (0 <? length samples)%nat && supportsRate ctx rate
    then Some {| numberOfChannels := 1; frames := length samples;
                 sampleRate := rate; channelData := scaled <$> samples |}
    else None.
Proof.
  intros Hatob Hrange.
  pose proof (fill_channel_spec samples []) as Hfill. simpl in Hfill.
  unfold decodeAudioData.
  rewrite Hatob. simpl. rewrite (int16_view_pcm16le _ Hrange). simpl.
  unfold createBuffer.
  destruct ((0 <? length samples)%nat && supportsRate ctx rate); [|done].
  simpl. by rewrite Hfill.
Qed.


(** The text may be the standard encoding of the stream: every stream
    of samples has a text to which the statement above applies. *)
Lemma decodeAudioData_btoa (ctx : AudioContext) (samples : list Z) :
  Forall int16 samples ->
  decodeAudioData (btoa (pcm16le samples)) ctx default_rate
  = if (0 <? length samples)%nat && supportsRate ctx default_rate
    then Some {| numberOfChannels := 1; frames := length samples;
                 sampleRate := default_rate;
                 channelData := scaled <$> samples |}
    else None.
Proof.
  intros Hrange. apply decodeAudioData_samples; [|done].
  apply atob_btoa, pcm16le_bytes.
Qed.

End Audio.


(** ** The exam score *)

Section ExamScore.
Import ExamModal.

Variable questions : list ExamQuestion.
Variable s : State.

(** The counter of the loop, started at [n], ends at [n] plus the number
    of correctly answered questions. *)
Lemma score_loop (qs : list ExamQuestion) (n : nat) :
  fold_left (fun score q => if correct s q then S score else score) qs n
  = (n + length (filter (fun q => correct s q = true) qs))%nat.
Proof.
  revert n. induction qs as [|q qs IH]; intros n; simpl.
  - lia.
  - rewrite IH, filter_cons. destruct (correct s q) eqn:Hq.
    + rewrite decide_True by done. simpl. lia.
    + rewrite decide_False by done. lia.
Qed.

(** C7: the score is the number of questions whose recorded answer is
    the correct option index; it is a count, so it lies between zero and
    the number of questions, with one point per correct answer and
    nothing taken off for a wrong one. *)
Theorem calculateScore_counts_correct :
  calculateScore questions s
    = length (filter (fun q => correct s q = true) questions)
  /\ (calculateScore questions s <= length questions)%nat
  /\ (forall q, correct s q = true ->
      calculateScore (questions ++ [q]) s = S (calculateScore questions s))
  /\ (forall q, correct s q = false ->
      calculateScore (questions ++ [q]) s = calculateScore questions s).
Proof.
  unfold calculateScore. split_and!.
  - by rewrite score_loop.
  - rewrite score_loop. apply length_filter.
  - intros q Hq. rewrite fold_left_app. simpl. by rewrite Hq.
  - intros q Hq. rewrite fold_left_app. simpl. by rewrite Hq.
Qed.

End ExamScore.

(** The scenario of five questions, three answered correctly and two
    incorrectly: the exam is submitted and the score is 3 of 5. *)
Example five_questions_three_correct :
  ExamModal.submitted quiz_run = true
  /\ ExamModal.calculateScore quiz quiz_run = 3%nat
  /\ length quiz = 5%nat.
Proof. vm_compute. done. Qed.

(** ** The submit gate of the exam *)

Section ExamGate.
Import ExamModal.

Variable questions : list ExamQuestion.

Lemma gate_inv_initial : gate_inv questions initial.
Proof.
  split; [|done]. simpl. rewrite dom_empty_L. apply empty_subseteq.
Qed.

Lemma gate_inv_step (s : State) (a : Action) :
  gate_inv questions s -> gate_inv questions (step questions s a).
Proof.
  intros [Hdom Hsub]. destruct a as [qIdx oIdx|]; simpl.
  - destruct (questions !! qIdx) as [q|] eqn:Hq; [|done].
    destruct (oIdx <? length (options q))%nat; [|done].
    unfold handleSelect. destruct (submitted s) eqn:Hs.
    { split; [done|]. intros _. by apply Hsub. }
    split; [|by simpl]. simpl. rewrite dom_insert_L.
    assert (id q ∈ question_ids questions).
    { unfold question_ids. rewrite elem_of_list_to_set.
      apply list_elem_of_fmap. exists q. split; [done|].
      by eapply list_elem_of_lookup_2. }
    apply union_subseteq. split; [|done]. by apply singleton_subseteq_l.
  - destruct (submitted s || submit_disabled questions s) eqn:Hgate;
      [done|].
    apply orb_false_iff in Hgate as [_ Hen]. split; [done|].
    intros _. exact Hen.
Qed.

Lemma gate_inv_run (actions : list Action) (s : State) :
  gate_inv questions s -> gate_inv questions (run questions s actions).
Proof.
  revert s. induction actions as [|a actions IH]; intros s Hs; [done|].
  simpl. apply IH. by apply gate_inv_step.
Qed.

Lemma size_list_to_set_le (l : list Z) :
  (size (list_to_set l : gset Z) <= length l)%nat.
Proof.
  induction l as [|x l IH].
  - by rewrite list_to_set_nil, size_empty.
  - rewrite list_to_set_cons, size_union_alt, size_singleton. simpl.
    assert (size (list_to_set l ∖ {[x]} : gset Z)
            <= size (list_to_set l : gset Z))%nat.
    { apply subseteq_size. apply subseteq_difference_l. done. }
    lia.
Qed.

Lemma size_question_ids :
  (size (question_ids questions) <= length questions)%nat.
Proof.
  unfold question_ids.
  etrans; [apply size_list_to_set_le|]. by rewrite length_fmap.
Qed.

(** When the count of entries equals the count of questions, every
    question has an entry (and no two questions share an id). *)
Lemma enabled_all_answered (s : State) :
  gate_inv questions s -> submit_disabled questions s = false ->
  all_answered questions s.
Proof.
  intros [Hdom _] Hen. unfold submit_disabled in Hen.
  apply negb_false_iff, Nat.eqb_eq in Hen.
  assert (Heq : dom (answers s) = question_ids questions).
  { apply set_subseteq_size_eq; [done|].
    rewrite size_dom, Hen. apply size_question_ids. }
  intros q Hq. apply elem_of_dom. rewrite Heq.
  unfold question_ids. rewrite elem_of_list_to_set.
  apply list_elem_of_fmap. by exists q.
Qed.

(** C6, as amended: on a freshly mounted exam with a fixed list of
    questions, whenever Submit Exam is enabled every question has a
    selected answer, and a submitted exam has one for every question.
    An empty list gets no treatment of its own: the same comparison of
    counts applies, and with no answer recorded the button is enabled. *)
Theorem submit_only_when_all_answered (actions : list Action) :
  let s := run questions initial actions in
  (submit_disabled questions s = false -> all_answered questions s)
  /\ (submitted s = true -> all_answered questions s)
  /\ submit_disabled [] initial = false.
Proof.
  pose proof (gate_inv_run actions initial gate_inv_initial) as Hinv.
  cbv zeta. split_and!.
  - by apply enabled_all_answered.
  - intros Hs. apply enabled_all_answered; [done|]. by apply Hinv.
  - reflexivity.
Qed.

End ExamGate.

(** An exam without questions: the button is enabled, pressing it
    submits, and the score reads 0 of 0. *)
Lemma empty_exam_can_be_submitted :
  ExamModal.submit_disabled [] ExamModal.initial = false
  /\ ExamModal.submitted
       (ExamModal.run [] ExamModal.initial [ExamModal.Submit]) = true
  /\ ExamModal.calculateScore []
       (ExamModal.run [] ExamModal.initial [ExamModal.Submit]) = 0%nat.
Proof. vm_compute. repeat split. Qed.

(** The gate counts entries, whatever questions they were recorded for:
    with the answers to five earlier questions still in the state, Submit
    Exam is enabled for five new questions of which none is answered.
    (Hence "freshly mounted" in the statement above.) *)
Example stale_answers_open_the_gate :
  ExamModal.submit_disabled second_quiz
    (ExamModal.run quiz ExamModal.initial quiz_picks) = false
  /\ Forall
       (fun q =>
          ExamModal.answers (ExamModal.run quiz ExamModal.initial quiz_picks)
            !! ExamModal.id q = None)
       second_quiz.
Proof. split; [vm_compute; reflexivity|]. repeat constructor. Qed.

(** ** The links handed to the layout *)

Section GraphLayout.
Import KnowledgeGraph.

Lemma copy_node_id (d : KnowledgeNode) : copy_node d = d.
Proof. by destruct d. Qed.

Lemma copy_link_id (d : KnowledgeLink) : copy_link d = d.
Proof. by destruct d. Qed.

(** C2, as amended: with no node the effect returns before any
    simulation is created; otherwise the simulation receives a copy of
    every node and the link force a copy of every link of the input, in
    order, none dropped, whether or not its ends are ids of nodes. *)
Theorem layout_receives_every_link (data : KnowledgeGraphData) :
  (nodes data = [] -> layout_input true data = None)
  /\ (nodes data <> [] ->
      layout_input true data
      = Some {| sim_nodes := nodes data; sim_links := links data |})
  /\ (forall input l, layout_input true data = Some input ->
      l ∈ links data -> l ∈ sim_links input).
Proof.
  assert (Hn : copy_node <$> nodes data = nodes data).
  { induction (nodes data) as [|d ds IH]; [done|].
    by rewrite fmap_cons, copy_node_id, IH. }
  assert (Hl : copy_link <$> links data = links data).
  { induction (links data) as [|d ds IH]; [done|].
    by rewrite fmap_cons, copy_link_id, IH. }
  unfold layout_input. rewrite Hn, Hl. split_and!.
  - by intros ->.
  - by destruct (nodes data).
  - intros input l. destruct (nodes data); simpl; [done|].
    by intros [= <-].
Qed.

End GraphLayout.

(** The link to the unknown id is among the links given to the link
    force. *)
Lemma dangling_link_reaches_layout :
  KnowledgeGraph.layout_input true dangling_graph
    = Some {| KnowledgeGraph.sim_nodes := KnowledgeGraph.nodes dangling_graph;
              KnowledgeGraph.sim_links := [dangling_link] |}
  /\ KnowledgeGraph.resolvable (KnowledgeGraph.nodes dangling_graph)
       dangling_link = false.
Proof. vm_compute. repeat split. Qed.

(** ** Lesson requests that overlap *)

Section Lessons.
Import App.

Lemma run_cons (s : State) (e : Event) (es : list Event) :
  run s (e :: es) = run (step s e) es.
Proof. reflexivity. Qed.

Lemma run_nil (s : State) : run s [] = s.
Proof. reflexivity. Qed.

Lemma step_settled (s : State) (ticket : nat) (reply : Reply) :
  step s (LessonSettled ticket reply) = lessonSettled ticket reply s.
Proof. reflexivity. Qed.

(** A change of depth with a module selected and a syllabus loaded sends
    one request, numbered [issued s]. *)
Lemma depth_change_sends (s : State) (m : CourseModule) (file : jstring)
    (d : ContentDepth) :
  activeModule s = Some m -> present (syllabusFile s) = Some file ->
  d <> contentDepth s ->
  step s (ClickDepth d)
  = send (lessonRequest file (title m) (topics m) d)
      (setLoadingContent true (setContentDepth d s)).
Proof.
  intros Hm Hf Hd. simpl. rewrite bool_decide_eq_false_2 by done.
  unfold depthEffect. simpl. by rewrite Hm, Hf.
Qed.

(** The continuation of a request in flight stores the text of its
    reply, whichever request it is. *)
Lemma lessonSettled_stores (ticket : nat) (r : Response) (s : State) :
  ticket ∈ (inFlight s).*1 ->
  lessonContent (lessonSettled ticket (Resolved r) s) = lessonText r
  /\ inFlight (lessonSettled ticket (Resolved r) s)
     = filter (fun p => p.1 <> ticket) (inFlight s).
Proof.
  intros Hin. unfold lessonSettled.
  rewrite bool_decide_eq_true_2 by done. done.
Qed.

(** C1, as amended: after two changes of depth for the active module,
    both requests are in flight, and the lesson content ends up equal to
    the result of the request whose reply arrives last: the second one
    when the replies arrive in the order of the requests, the first one
    when they arrive in the opposite order.  No reply is discarded. *)
Theorem lesson_content_is_last_reply
    (s : State) (m : CourseModule) (file : jstring)
    (d1 d2 : ContentDepth) (r1 r2 : Response) :
  activeModule s = Some m ->
  present (syllabusFile s) = Some file ->
  d1 <> contentDepth s ->
  d2 <> d1 ->
  let s2 := run s [ClickDepth d1; ClickDepth d2] in
  let t1 := issued s in
  let t2 := S (issued s) in
  inFlight s2
    = inFlight s ++ [(t1, lessonRequest file (title m) (topics m) d1);
                     (t2, lessonRequest file (title m) (topics m) d2)]
  /\ lessonContent
       (run s2 [LessonSettled t1 (Resolved r1);
                LessonSettled t2 (Resolved r2)])
     = lessonText r2
  /\ lessonContent
       (run s2 [LessonSettled t2 (Resolved r2);
                LessonSettled t1 (Resolved r1)])
     = lessonText r1.
Proof.
  intros Hm Hf Hd1 Hd2. cbv zeta.
  rewrite !run_cons, !run_nil, !step_settled.
  rewrite (depth_change_sends s m file d1 Hm Hf Hd1).
  set (s1 := send _ _).
  rewrite (depth_change_sends s1 m file d2) by done.
  set (s2 := send _ _).
  assert (Hfl : inFlight s2
    = inFlight s ++ [(issued s, lessonRequest file (title m) (topics m) d1);
                     (S (issued s),
                      lessonRequest file (title m) (topics m) d2)]).
  { simpl. by rewrite <- app_assoc. }
  assert (H1 : issued s ∈ (inFlight s2).*1).
  { rewrite Hfl, fmap_app. apply elem_of_app. right. simpl. left. }
  assert (H2 : S (issued s) ∈ (inFlight s2).*1).
  { rewrite Hfl, fmap_app. apply elem_of_app. right. simpl.
    right. left. }
  split; [exact Hfl|]. split.
  - destruct (lessonSettled_stores (issued s) r1 s2 H1) as [_ Hfl1].
    apply lessonSettled_stores. rewrite Hfl1, Hfl.
    rewrite filter_app, fmap_app. apply elem_of_app. right.
    rewrite filter_cons_False by (simpl; intros H; by apply H).
    rewrite filter_cons_True by (simpl; lia). simpl. left.
  - destruct (lessonSettled_stores (S (issued s)) r2 s2 H2) as [_ Hfl2].
    apply lessonSettled_stores. rewrite Hfl2, Hfl.
    rewrite filter_app, fmap_app. apply elem_of_app. right.
    rewrite filter_cons_True by (simpl; lia). simpl. left.
Qed.

End Lessons.

(** Two changes of depth, the reply to the second arriving first: the
    depth shown is Deep Dive, the second request answered "deep dive",
    and the content is the summary. *)
Lemma stale_reply_overwrites_newer :
  App.contentDepth out_of_order_run = DEEP_DIVE
  /\ lessonResult (text_reply (js "deep dive")) = Ok (js "deep dive")
  /\ App.lessonContent out_of_order_run = js "summary"
  /\ App.lessonContent out_of_order_run <> js "deep dive"
  /\ App.inFlight out_of_order_run = [].
Proof. vm_compute. split_and!; done. Qed.

(** The same two changes, the replies arriving in the order of the
    requests. *)
Lemma lesson_content_is_last_reply_witness :
  App.lessonContent
    (App.run
       (App.run session_with_lesson
          [App.ClickDepth SUMMARY; App.ClickDepth DEEP_DIVE])
       [App.LessonSettled 1 (text_reply (js "summary"));
        App.LessonSettled 2 (text_reply (js "deep dive"))])
  = js "deep dive".
Proof.
  refine (proj1 (proj2
    (lesson_content_is_last_reply session_with_lesson calculus_module
       (js "JVBERi0=") SUMMARY DEEP_DIVE
       {| text := Some (js "summary"); inlineData := None |}
       {| text := Some (js "deep dive"); inlineData := None |}
       _ _ _ _))).
  - reflexivity.
  - reflexivity.
  - discriminate.
  - discriminate.
Defined.

(** ** Playback *)

Section Playback.
Import App.

Lemma audible_setLoadingAudio (b : bool) (s : State) :
  audible (setLoadingAudio b s) = audible s.
Proof. reflexivity. Qed.

(** The request changed nothing that is audible. *)
Ltac nothing_started :=
  exists []; rewrite app_nil_r, ?audible_setLoadingAudio;
  split; [reflexivity | simpl; lia].

(** No event removes a source from the context. *)
Lemma started_step (s : State) (e : Event) :
  exists more, started (step s e) = started s ++ more.
Proof.
  destruct e as [d|m|ticket reply|reply|fresh|dt]; simpl.
  - destruct (bool_decide (d = contentDepth s)); [by exists []; rewrite app_nil_r|].
    unfold depthEffect. simpl.
    destruct (activeModule s), (present (syllabusFile s));
      by exists []; rewrite app_nil_r.
  - unfold handleModuleSelect.
    destruct (present (syllabusFile s)); by exists []; rewrite app_nil_r.
  - unfold lessonSettled.
    destruct (bool_decide (ticket ∈ (inFlight s).*1));
      [|by exists []; rewrite app_nil_r].
    destruct (lessonResult reply); by exists []; rewrite app_nil_r.
  - destruct (loadingAudio s); [by exists []; rewrite app_nil_r|].
    unfold playAudioTutor, generateAudioLesson.
    destruct (is_nil (lessonContent s)); [by exists []; rewrite app_nil_r|].
    destruct reply as [|response]; [by exists []; rewrite app_nil_r|].
    destruct (present (inlineData response)) as [audioBase64|];
      [|by exists []; rewrite app_nil_r].
    unfold started.
    destruct (audioContextRef s) as [ctx|] eqn:Hctx;
      [|exists []; simpl; by rewrite Hctx].
    destruct (decodeAudioData audioBase64 ctx default_rate) as [buffer|];
      [|exists []; simpl; by rewrite Hctx, app_nil_r].
    simpl. by eexists.
  - unfold started. destruct (audioContextRef s) as [ctx|] eqn:Hctx; simpl.
    + exists []. by rewrite Hctx, app_nil_r.
    + by eexists.
  - unfold started. simpl.
    destruct (audioContextRef s) as [ctx|]; simpl; exists [];
      by rewrite ?app_nil_r.
Qed.

Lemma started_run (events : list Event) (s : State) :
  exists more, started (run s events) = started s ++ more.
Proof.
  revert s. induction events as [|e events IH]; intros s.
  - exists []. by rewrite app_nil_r.
  - destruct (started_step s e) as [m1 H1].
    destruct (IH (step s e)) as [m2 H2].
    exists (m1 ++ m2). simpl. rewrite app_assoc, <- H1. exact H2.
Qed.

(** C9, as amended: a playback request stops nothing.  Every source
    audible before the request is audible after it, in the same order,
    followed by at most one new source; and over any sequence of events
    of a session the sources started on the context only accumulate, so
    each one plays until its buffer ends, whatever is started
    meanwhile. *)
Theorem playback_keeps_earlier_sources (s : State) (reply : Reply) :
  (exists new,
     audible (step s (ClickAudio reply)) = audible s ++ new
     /\ (length new <= 1)%nat)
  /\ (forall events, exists more,
       started (run s events) = started s ++ more).
Proof.
  split; [|intros events; apply started_run].
  simpl. destruct (loadingAudio s); [nothing_started|].
  unfold playAudioTutor, generateAudioLesson.
  destruct (is_nil (lessonContent s)); [nothing_started|].
  destruct reply as [|response]; [nothing_started|].
  destruct (present (inlineData response)) as [audioBase64|];
    [|nothing_started].
  destruct (audioContextRef s) as [ctx|] eqn:Hctx; [|nothing_started].
  destruct (decodeAudioData audioBase64 ctx default_rate) as [buffer|];
    [|nothing_started].
  rewrite audible_setLoadingAudio. unfold audible. simpl. rewrite Hctx.
  unfold playing. simpl. rewrite filter_app.
  eexists. split; [reflexivity|].
  etrans; [apply length_filter|]. done.
Qed.

End Playback.

(** Two playback requests, the second one frame after the first started:
    both sources are audible at once. *)
Lemma two_playbacks_overlap :
  length (App.audible double_playback) = 2%nat
  /\ App.loadingAudio double_playback = false.
Proof. vm_compute. split; reflexivity. Qed.

(** ** Data URLs *)

Section DataUrls.
Import DataUrl.

Lemma split_comma_free (p cur : jstring) :
  comma ∉ p -> split_comma p cur = [rev cur ++ p].
Proof.
  revert cur. induction p as [|c p IH]; intros cur Hp.
  - simpl. by rewrite app_nil_r.
  - apply not_elem_of_cons in Hp as [Hc Hp]. simpl.
    destruct (N.eqb_spec c comma) as [->|_]; [done|].
    rewrite IH by done. simpl. by rewrite <- app_assoc.
Qed.

Lemma split_comma_app (p rest cur : jstring) :
  comma ∉ p ->
  split_comma (p ++ comma :: rest) cur = (rev cur ++ p) :: split_comma rest [].
Proof.
  revert cur. induction p as [|c p IH]; intros cur Hp.
  - cbn [split_comma app]. by rewrite N.eqb_refl, app_nil_r.
  - apply not_elem_of_cons in Hp as [Hc Hp]. simpl.
    destruct (N.eqb_spec c comma) as [->|_]; [done|].
    rewrite IH by done. simpl. by rewrite <- app_assoc.
Qed.

(** X1: from a data URL, [fileToGenerativePart] resolves to what stands
    between the first comma and the next one (or the end). *)
Theorem fileToGenerativePart_payload (prefix payload : jstring) :
  comma ∉ prefix -> comma ∉ payload ->
  (fileToGenerativePart (ReadDone (prefix ++ comma :: payload))
   = Ok (Some payload))
  /\ forall rest,
       fileToGenerativePart
         (ReadDone (prefix ++ comma :: payload ++ comma :: rest))
       = Ok (Some payload).
Proof.
  intros Hp Hd. unfold fileToGenerativePart. split; [|intros rest].
  - by rewrite split_comma_app, split_comma_free.
  - by rewrite !split_comma_app.
Qed.

(** X2: a result without a comma makes the promise resolve to
    [undefined]; it does not reject. *)
Theorem fileToGenerativePart_no_comma (result : jstring) :
  comma ∉ result -> fileToGenerativePart (ReadDone result) = Ok None.
Proof.
  intros H. unfold fileToGenerativePart. by rewrite split_comma_free.
Qed.

Lemma btoa_no_comma (bs : list N) : comma ∉ btoa bs.
Proof.
  unfold btoa. rewrite elem_of_app. intros [H|H].
  - apply list_elem_of_fmap in H as (v & Hv & _).
    revert Hv. unfold b64char, comma. vm_compute ch. case_compare; lia.
  - apply list_elem_of_In in H. unfold padding in H.
    destruct (length bs mod 3)%nat as [|[|[|]]]; vm_compute in H;
      intuition discriminate.
Qed.

(** X3: the part taken from the data URL of a file decodes to the bytes
    of the file. *)
Theorem fileToGenerativePart_atob (prefix : jstring) (bs : list N) :
  Forall byte bs -> comma ∉ prefix ->
  exists data,
    fileToGenerativePart (ReadDone (prefix ++ comma :: btoa bs))
      = Ok (Some data)
    /\ atob data = Some bs.
Proof.
  intros Hbs Hp. exists (btoa bs). split; [|by apply atob_btoa].
  unfold fileToGenerativePart.
  by rewrite split_comma_app, split_comma_free by (done || apply btoa_no_comma).
Qed.

End DataUrls.

(** The data URL of a PDF of four bytes. *)
Lemma fileToGenerativePart_payload_witness :
  DataUrl.fileToGenerativePart (DataUrl.ReadDone pdf_url)
  = Ok (Some (js "JVBERg==")).
Proof.
  refine (proj1 (fileToGenerativePart_payload
    (js "data:application/pdf;base64") (js "JVBERg==") _ _)).
  - intros H. apply list_elem_of_In in H. vm_compute in H.
    intuition discriminate.
  - intros H. apply list_elem_of_In in H. vm_compute in H.
    intuition discriminate.
Defined.

(** The bare payload, without the prefix of a data URL. *)
Lemma fileToGenerativePart_no_comma_witness :
  DataUrl.fileToGenerativePart (DataUrl.ReadDone (js "JVBERg==")) = Ok None.
Proof.
  apply (fileToGenerativePart_no_comma (js "JVBERg==")).
  intros H. apply list_elem_of_In in H. vm_compute in H.
  intuition discriminate.
Defined.

(** The four bytes [%PDF]. *)
Lemma fileToGenerativePart_atob_witness :
  btoa [37; 80; 68; 70] = js "JVBERg=="
  /\ exists data,
       DataUrl.fileToGenerativePart (DataUrl.ReadDone pdf_url)
         = Ok (Some data)
       /\ atob data = Some [37; 80; 68; 70].
Proof.
  split; [reflexivity|].
  apply (fileToGenerativePart_atob (js "data:application/pdf;base64")
           [37; 80; 68; 70]).
  - repeat constructor.
  - intros H. apply list_elem_of_In in H. vm_compute in H.
    intuition discriminate.
Defined.

(** ** The service helpers *)

Section ServiceHelpers.
Import Sidekick.

Lemma or_else_truthy (v : option json) (d : json) :
  truthy d = true -> truthy (or_else v d) = true.
Proof.
  intros Hd. destruct v as [v|]; simpl; [|done].
  by destruct (truthy v) eqn:Hv.
Qed.

Lemma or_else_cases (v : option json) (d : json) :
  truthy (or_else v d) = true \/ or_else v d = d.
Proof.
  destruct v as [v|]; simpl; [|by right].
  destruct (truthy v) eqn:Hv; [by left|by right].
Qed.

(** X4: a structure that [parseSyllabus] returns has a title that passes
    for true (never an empty string, [null], [false] or zero), and a
    description that does so or is the empty string. *)
Theorem parseSyllabus_title_truthy
    (ai : Service) (fileBase64 : jstring) (cs : CourseStructure) :
  parseSyllabus ai fileBase64 = Ok cs ->
  truthy (title cs) = true
  /\ (truthy (description cs) = true \/ description cs = JString []).
Proof.
  unfold parseSyllabus. destruct (ai _) as [|response]; [done|].
  destruct (negb _); [done|]. intros [= <-]. simpl. split.
  - by apply or_else_truthy.
  - apply or_else_cases.
Qed.

Lemma space_run_le (s : jstring) : (space_run s <= length s)%nat.
Proof.
  induction s as [|c s IH]; simpl; [lia|]. destruct (is_space c); simpl; lia.
Qed.

Lemma starts_with_fence_tick (s : jstring) :
  tick ∉ s -> starts_with fence s = false.
Proof.
  intros H. destruct s as [|c s]; [done|].
  apply not_elem_of_cons in H as [Hc _].
  rewrite fence_eq, starts_with_cons.
  by destruct (N.eqb_spec tick c).
Qed.

Lemma fence_match_tick_free (s : jstring) : tick ∉ s -> fence_match s = 0%nat.
Proof.
  intros H. unfold fence_match.
  assert (starts_with fence_json s = false) as ->.
  { destruct s as [|c s]; [done|].
    apply not_elem_of_cons in H as [Hc _].
    rewrite fence_json_eq, starts_with_cons.
    by destruct (N.eqb_spec tick c). }
  rewrite starts_with_fence_tick; [done|].
  intros Hin. apply H. apply list_elem_of_lookup_1 in Hin as [i Hi].
  rewrite lookup_drop in Hi. by eapply list_elem_of_lookup_2.
Qed.

Lemma remove_fences_tick_free (s : jstring) :
  tick ∉ s -> remove_fences 0 s = s.
Proof.
  induction s as [|c s IH]; [done|]. intros H.
  cbn [remove_fences]. rewrite (fence_match_tick_free _ H).
  apply not_elem_of_cons in H as [_ H]. by rewrite IH.
Qed.

(** X5: on a text without a backtick the cleanup of [safeParseJSON] is
    [trim]: the result is the direct parse, else the parse of the trimmed
    text, else [null]. *)
Theorem safeParseJSON_without_backtick (t : jstring) :
  tick ∉ t ->
  cleaned t = trim t
  /\ safeParseJSON (Some t)
     = match JSON_parse t with
       | Some v => v
       | None => default JNull (JSON_parse (trim t))
       end.
Proof.
  intros H.
  assert (Hc : cleaned t = trim t).
  { unfold cleaned. by rewrite remove_fences_tick_free. }
  split; [done|]. rewrite safeParseJSON_unfold, Hc.
  by destruct (JSON_parse t), (JSON_parse (trim t)).
Qed.

(** X7: whatever the service answers, [chatWithSidekick] does not resolve
    to an empty string: an absent or empty text is replaced. *)
Theorem chatWithSidekick_never_empty
    (chat : ChatService) (history : list Turn) (message context : jstring)
    (imagePart : option jstring) (answer : jstring) :
  chatWithSidekick chat history message context imagePart = Ok answer ->
  answer <> [].
Proof.
  unfold chatWithSidekick, chatResult.
  destruct (chat _) as [|[response|]]; [done| |done].
  destruct (text response) as [[|c t]|]; by intros [= <-].
Qed.

End ServiceHelpers.

(** A payload with a title and no description. *)
Lemma parseSyllabus_title_truthy_witness :
  parseSyllabus (constant_service course_reply) [] = Ok course
  /\ truthy (title course) = true
  /\ (truthy (description course) = true \/ description course = JString []).
Proof.
  split; [reflexivity|].
  apply (parseSyllabus_title_truthy (constant_service course_reply) []).
  reflexivity.
Defined.

(** A form feed before the payload: [JSON.parse] does not take it,
    [trim] removes it. *)
Lemma safeParseJSON_without_backtick_witness :
  JSON_parse (12 :: js "[true]") = None
  /\ cleaned (12 :: js "[true]") = trim (12 :: js "[true]")
  /\ safeParseJSON (Some (12 :: js "[true]"))
     = match JSON_parse (12 :: js "[true]") with
       | Some v => v
       | None => default JNull (JSON_parse (trim (12 :: js "[true]")))
       end.
Proof.
  split; [reflexivity|].
  apply (safeParseJSON_without_backtick (12 :: js "[true]")).
  intros H. apply list_elem_of_In in H. vm_compute in H.
  intuition discriminate.
Defined.

(** A reply without text. *)
Lemma chatWithSidekick_never_empty_witness :
  Sidekick.chatWithSidekick (fun _ => mute_reply) [] (js "hi") [] None
  = Ok Sidekick.chat_placeholder
  /\ Sidekick.chat_placeholder <> [].
Proof.
  split; [reflexivity|].
  apply (chatWithSidekick_never_empty (fun _ => mute_reply) [] (js "hi") []
           None).
  reflexivity.
Defined.

(** ** Decoding of any text, and the time a source is heard *)

Section AudioAny.

Lemma to_uint8_range (c : N) : (0 <= to_uint8 c < 256)%Z.
Proof. unfold to_uint8. apply Z.mod_pos_bound. lia. Qed.

(** The view of an even number of bytes has half as many elements, each
    a 16-bit signed integer; an odd number of bytes has no view. *)
Lemma int16_view_spec (bytes : list Z) :
  Forall (fun b => (0 <= b < 256)%Z) bytes ->
  match int16_view bytes with
  | Some l => length bytes = (2 * length l)%nat /\ Forall int16 l
  | None => Nat.odd (length bytes) = true
  end.
Proof.
  remember (length bytes) as n eqn:Hn. revert bytes Hn.
  induction n as [n IH] using lt_wf_ind. intros bytes -> Hb.
  destruct bytes as [|lo [|hi r]]; [by split| reflexivity |].
  inversion Hb as [|? ? Hlo Hb']; subst. inversion Hb' as [|? ? Hhi Hr]; subst.
  cbn [int16_view]. cbv zeta.
  specialize (IH (length r) ltac:(simpl; lia) r eq_refl Hr).
  destruct (int16_view r) as [l|]; cbn [fmap option_fmap option_map].
  - destruct IH as [Hlen Hl]. split; [simpl; lia|].
    constructor; [|done]. unfold int16.
    destruct (Z.ltb_spec (lo + 256 * hi) 32768); lia.
  - cbn [length]. by rewrite Nat.odd_succ, Nat.even_succ.
Qed.

(** X8: whatever the text, a buffer that [decodeAudioData] returns has
    one channel, the requested rate, at least one frame, one frame for
    every two bytes of the decoded text, and samples from -1 to just
    below 1. *)
Theorem decodeAudioData_sound
    (base64String : jstring) (ctx : AudioContext) (rate : Z)
    (buf : AudioBuffer) :
  decodeAudioData base64String ctx rate = Some buf ->
  exists binaryString,
    atob base64String = Some binaryString
    /\ length binaryString = (2 * frames buf)%nat
    /\ (0 < frames buf)%nat
    /\ numberOfChannels buf = 1%nat
    /\ sampleRate buf = rate
    /\ supportsRate ctx rate = true
    /\ length (channelData buf) = frames buf
    /\ Forall (fun q => Qle (-1) q /\ Qlt q 1) (channelData buf).
Proof.
  unfold decodeAudioData. intros H.
  destruct (atob base64String) as [binaryString|]; [|done].
  exists binaryString. split; [done|]. cbn [mbind option_bind] in H.
  pose proof (int16_view_spec (to_uint8 <$> binaryString)) as Hview.
  destruct (int16_view (to_uint8 <$> binaryString)) as [dataInt16|];
    [|done].
  destruct Hview as [Hlen Hrange].
  { apply Forall_fmap, Forall_forall. intros c _. apply to_uint8_range. }
  rewrite length_fmap in Hlen. cbn [mbind option_bind] in H.
  unfold createBuffer in H.
  destruct (0 <? length dataInt16)%nat eqn:Hpos; [|done].
  destruct (supportsRate ctx rate) eqn:Hrate; [|done].
  cbn [andb mbind option_bind numberOfChannels frames sampleRate channelData]
    in H.
  pose proof (fill_channel_spec dataInt16 []) as Hfill. simpl in Hfill.
  rewrite Hfill in H. injection H as <-.
  cbn [numberOfChannels frames sampleRate channelData].
  apply Nat.ltb_lt in Hpos. split_and!; try done.
  - by rewrite length_fmap.
  - apply Forall_fmap. eapply Forall_impl; [exact Hrange|].
    intros x Hx. unfold int16 in Hx. unfold scaled, Qle, Qlt. simpl. lia.
Qed.

(** X9: [decodeAudioData] rejects exactly when [atob] throws, or the
    decoded text has an odd number of bytes or none, or the context does
    not take the rate. *)
Theorem decodeAudioData_rejects
    (base64String : jstring) (ctx : AudioContext) (rate : Z) :
  decodeAudioData base64String ctx rate = None
  <-> atob base64String = None
      \/ exists binaryString,
           atob base64String = Some binaryString
           /\ (Nat.odd (length binaryString) = true
               \/ binaryString = []
               \/ supportsRate ctx rate = false).
Proof.
  unfold decodeAudioData.
  destruct (atob base64String) as [binaryString|]; [|by split; [left|]].
  cbn [mbind option_bind].
  pose proof (int16_view_spec (to_uint8 <$> binaryString)) as Hview.
  rewrite length_fmap in Hview.
  destruct (int16_view (to_uint8 <$> binaryString)) as [dataInt16|].
  - destruct Hview as [Hlen _].
    { apply Forall_fmap, Forall_forall. intros c _. apply to_uint8_range. }
    cbn [mbind option_bind]. unfold createBuffer.
    assert (Heven : Nat.odd (length binaryString) = false).
    { rewrite Hlen, Nat.odd_mul. done. }
    destruct (0 <? length dataInt16)%nat eqn:Hpos;
      destruct (supportsRate ctx rate) eqn:Hrate; cbn [andb mbind option_bind].
    + apply Nat.ltb_lt in Hpos. split; [done|].
      intros [|(b & [= <-] & [H|[->|H]])]; try done; try congruence.
      simpl in Hlen. lia.
    + split; [|done]. intros _. right. exists binaryString. by auto.
    + apply Nat.ltb_ge in Hpos. split; [|done]. intros _. right.
      exists binaryString. split; [done|]. right. left.
      destruct binaryString; [done|simpl in Hlen; lia].
    + split; [|done]. intros _. right. exists binaryString. by auto.
  - cbn [mbind option_bind]. split; [|done]. intros _. right.
    exists binaryString. split; [done|]. left. apply Hview.
    apply Forall_fmap, Forall_forall. intros c _. apply to_uint8_range.
Qed.

Lemma duration_nonneg (b : AudioBuffer) : Qle 0 (duration b).
Proof. unfold duration, Qle. simpl. lia. Qed.

(** X10: the source that [playAudioBuffer] starts is heard from the
    moment of the call until the duration of its buffer has passed, and
    not after. *)
Theorem playAudioBuffer_heard_for_duration
    (b : AudioBuffer) (ctx : AudioContext) (dt : Q) :
  Qle 0 dt ->
  let '(ctx', source) := playAudioBuffer b ctx in
  source ∈ sources ctx'
  /\ (source ∈ playing (elapse dt ctx') <-> Qlt dt (duration b)).
Proof.
  intros Hdt. unfold playAudioBuffer. cbv zeta.
  split; [cbn [sources]; apply elem_of_app; right; apply list_elem_of_singleton; done|].
  unfold playing, elapse. cbn [currentTime sources].
  rewrite list_elem_of_filter. unfold is_playing. cbn [startedAt buffer].
  rewrite andb_true_iff, negb_true_iff, Qle_bool_iff.
  rewrite <- not_true_iff_false, Qle_bool_iff.
  split.
  - intros [[_ H] _]. apply Qnot_le_lt in H. lra.
  - intros H. split; [split; [lra|]|].
    + apply Qlt_not_le. lra.
    + apply elem_of_app. right. by apply list_elem_of_singleton.
Qed.

End AudioAny.

(** The four samples of [speech_reply]: eight bytes, four frames. *)
Lemma decodeAudioData_sound_witness :
  exists binaryString,
    atob (js "AAD/fwCA//8=") = Some binaryString
    /\ length binaryString = (2 * frames four_frames)%nat
    /\ (0 < frames four_frames)%nat
    /\ numberOfChannels four_frames = 1%nat
    /\ sampleRate four_frames = default_rate
    /\ supportsRate fresh_context default_rate = true
    /\ length (channelData four_frames) = frames four_frames
    /\ Forall (fun q => Qle (-1) q /\ Qlt q 1) (channelData four_frames).
Proof.
  apply (decodeAudioData_sound (js "AAD/fwCA//8=") fresh_context
           default_rate four_frames).
  reflexivity.
Defined.

(** Four frames at 24000 Hz, one frame after the start. *)
Lemma playAudioBuffer_heard_for_duration_witness :
  let '(ctx', source) := playAudioBuffer four_frames fresh_context in
  source ∈ sources ctx'
  /\ (source ∈ playing (elapse (Qmake 1 24000) ctx')
      <-> Qlt (Qmake 1 24000) (duration four_frames)).
Proof.
  apply (playAudioBuffer_heard_for_duration four_frames fresh_context
           (Qmake 1 24000)).
  unfold Qle. simpl. lia.
Defined.

(** ** The exam after submission, and its buttons *)

Section ExamAfter.
Import ExamModal ExamView.

Variable questions : list ExamQuestion.

Lemma submitted_step (s : State) (a : Action) :
  submitted s = true -> step questions s a = s.
Proof.
  intros Hs. destruct a as [qIdx oIdx|]; simpl.
  - destruct (questions !! qIdx) as [q|]; [|done].
    destruct (oIdx <? length (options q))%nat; [|done].
    unfold handleSelect. by rewrite Hs.
  - by rewrite Hs.
Qed.

(** X11: a submitted exam is final: no press of an option or of a button
    of the component changes the answers or the flag. *)
Theorem submitted_is_final (s : State) (actions : list Action) :
  submitted s = true -> run questions s actions = s.
Proof.
  intros Hs. induction actions as [|a actions IH]; [done|].
  unfold run in *. simpl. by rewrite submitted_step.
Qed.

Lemma NoDup_size_list_to_set (l : list Z) :
  size (list_to_set l : gset Z) = length l -> NoDup l.
Proof.
  induction l as [|x l IH]; [constructor|].
  rewrite list_to_set_cons. intros Hsize.
  pose proof (size_list_to_set_le l) as Hle.
  destruct (decide (x ∈ l)) as [Hin|Hnin].
  - exfalso.
    assert (({[x]} ∪ list_to_set l : gset Z) = list_to_set l) as Heq.
    { apply subseteq_union_1_L, singleton_subseteq_l.
      by apply elem_of_list_to_set. }
    rewrite Heq in Hsize. simpl in Hsize. lia.
  - constructor; [done|]. apply IH.
    rewrite size_union, size_singleton in Hsize.
    + simpl in Hsize. lia.
    + apply disjoint_singleton_l. by rewrite elem_of_list_to_set.
Qed.

(** X12: when two questions of the list carry the same id, the exam
    cannot be submitted: the answers are kept by id, so their count stays
    below the count of questions. *)
Theorem duplicate_ids_block_submission (actions : list Action) :
  ~ NoDup (id <$> questions) ->
  let s := run questions initial actions in
  submit_disabled questions s = true /\ submitted s = false.
Proof.
  intros Hdup. cbv zeta.
  pose proof (gate_inv_run questions actions initial
                (gate_inv_initial questions)) as [Hdom Hsub].
  assert (Hdis : submit_disabled questions
                   (run questions initial actions) = true).
  { destruct (submit_disabled _ _) eqn:Hen; [done|]. exfalso. apply Hdup.
    unfold submit_disabled in Hen.
    apply negb_false_iff, Nat.eqb_eq in Hen.
    apply NoDup_size_list_to_set. rewrite length_fmap.
    apply Nat.le_antisymm; [apply (size_question_ids questions)|].
    rewrite <- Hen, <- size_dom. by apply subseteq_size. }
  split; [done|].
  destruct (submitted _) eqn:Hs; [|done].
  rewrite Hsub in Hdis; done.
Qed.

(** X13: while the exam is in progress the buttons of a question behave
    as a radio group: after a press on option [oIdx], that button and no
    other of the question is shown as chosen. *)
Theorem selection_is_exclusive (s : State) (q : ExamQuestion) (oIdx : nat) :
  submitted s = false ->
  forall o,
    optionStyle (handleSelect (id q) (Z.of_nat oIdx) s) q o
    = if bool_decide (o = oIdx) then Chosen else Plain.
Proof.
  intros Hs o. unfold optionStyle, handleSelect. rewrite Hs. simpl.
  rewrite lookup_insert_eq.
  repeat case_bool_decide; try done; [naive_solver lia|congruence].
Qed.

(** X14: after submission the button of the option that was chosen is
    green when the answer gets the point and red when it does not, and
    the button of the correct option is green. *)
Theorem chosen_option_green_or_red
    (s : State) (q : ExamQuestion) (oIdx : nat) :
  submitted s = true ->
  answers s !! id q = Some (Z.of_nat oIdx) ->
  optionStyle s q oIdx = (if correct s q then Green else Red)
  /\ forall o, Z.of_nat o = correctAnswerIndex q -> optionStyle s q o = Green.
Proof.
  intros Hs Ha. unfold optionStyle, correct. rewrite Hs, Ha. simpl. split.
  - repeat case_bool_decide; try done; congruence.
  - intros o Ho. by rewrite bool_decide_eq_true_2.
Qed.

End ExamAfter.

(** The submitted quiz: another choice and another press of Submit. *)
Lemma submitted_is_final_witness :
  ExamModal.run quiz quiz_run [ExamModal.Select 3 2; ExamModal.Submit]
  = quiz_run.
Proof.
  apply (submitted_is_final quiz quiz_run
           [ExamModal.Select 3 2; ExamModal.Submit]).
  reflexivity.
Defined.

(** Two questions with the id 1, both answered. *)
Lemma duplicate_ids_block_submission_witness :
  let s := ExamModal.run twin_quiz ExamModal.initial
             [ExamModal.Select 0 0; ExamModal.Select 1 1; ExamModal.Submit] in
  ExamModal.submit_disabled twin_quiz s = true
  /\ ExamModal.submitted s = false.
Proof.
  apply (duplicate_ids_block_submission twin_quiz
           [ExamModal.Select 0 0; ExamModal.Select 1 1; ExamModal.Submit]).
  intros H. apply NoDup_cons in H as [H _]. apply H. left.
Defined.

(** The third option of a question is pressed. *)
Lemma selection_is_exclusive_witness :
  let s := ExamModal.handleSelect 1 2 ExamModal.initial in
  ExamView.optionStyle s (quiz_question 1 0) 2 = ExamView.Chosen
  /\ ExamView.optionStyle s (quiz_question 1 0) 0 = ExamView.Plain.
Proof.
  split.
  - apply (selection_is_exclusive ExamModal.initial (quiz_question 1 0) 2
             eq_refl 2).
  - apply (selection_is_exclusive ExamModal.initial (quiz_question 1 0) 2
             eq_refl 0).
Defined.

(** The fourth question of the quiz, answered with the first option
    where the third is correct. *)
Lemma chosen_option_green_or_red_witness :
  ExamView.optionStyle quiz_run (quiz_question 4 2) 0 = ExamView.Red
  /\ ExamView.optionStyle quiz_run (quiz_question 4 2) 2 = ExamView.Green.
Proof.
  destruct (chosen_option_green_or_red quiz_run (quiz_question 4 2) 0
              eq_refl eq_refl) as [H1 H2].
  split; [exact H1|]. apply (H2 2%nat). reflexivity.
Defined.

(** ** Dragging a node of the graph *)

Section Dragging.
Import GraphDrag.

Lemma moved_position (moves : list DragEvent) (n : SimNode) :
  x (moved moves n) = x n /\ y (moved moves n) = y n.
Proof.
  revert n. induction moves as [|e moves IH]; intros n; [done|].
  unfold moved in *. simpl. by destruct (IH (dragged e n)).
Qed.

Lemma moved_snoc (moves : list DragEvent) (e : DragEvent) (n : SimNode) :
  moved (moves ++ [e]) n = dragged e (moved moves n).
Proof. unfold moved. by rewrite fold_left_app. Qed.

(** X15: while a node is dragged it is fixed where the pointer was
    last, or where the node stood when no move came yet; the handlers
    leave its own position to the simulation. *)
Theorem dragged_node_follows_pointer
    (start : DragEvent) (moves : list DragEvent) (sim : Simulation)
    (subject : SimNode) :
  let n := moved moves (dragstarted start sim subject).2 in
  x n = x subject /\ y n = y subject
  /\ fx n = Some (from_option pointer_x (x subject) (last moves))
  /\ fy n = Some (from_option pointer_y (y subject) (last moves)).
Proof.
  cbv zeta. destruct (moved_position moves (dragstarted start sim subject).2)
    as [Hx Hy].
  split_and!; [done|done| |]; clear Hx Hy.
  - destruct moves as [|e moves _] using rev_ind; [done|].
    by rewrite moved_snoc, last_snoc.
  - destruct moves as [|e moves _] using rev_ind; [done|].
    by rewrite moved_snoc, last_snoc.
Qed.

End Dragging.

(** ** The lesson pane *)

Section LessonPane.
Import App.

Lemma lessonText_nonempty (response : Response) : lessonText response <> [].
Proof. unfold lessonText. by destruct (text response) as [[|c t]|]. Qed.

Lemma spinner_step (s : State) (e : Event) :
  (loadingContent s = true -> inFlight s <> []) ->
  loadingContent (step s e) = true -> inFlight (step s e) <> [].
Proof.
  intros Hinv. destruct e as [d|m|ticket reply|reply|fresh|dt]; simpl.
  - case_bool_decide; [done|]. unfold depthEffect. simpl.
    destruct (activeModule s); [|done].
    destruct (present (syllabusFile s)); [|done].
    simpl. intros _ Hnil. by apply app_eq_nil in Hnil as [_ ?].
  - unfold handleModuleSelect. simpl.
    destruct (present (syllabusFile s)); [|done].
    simpl. intros _ Hnil. by apply app_eq_nil in Hnil as [_ ?].
  - unfold lessonSettled. case_bool_decide; [|done].
    by destruct (lessonResult reply).
  - destruct (loadingAudio s); [done|]. unfold playAudioTutor.
    repeat case_match; simpl; done.
  - by destruct (audioContextRef s).
  - done.
Qed.

(** X17: the placeholder of the lesson pane never stays without a cause:
    in any state reached, while [loadingContent] is set a lesson request
    is in flight. *)
Theorem spinner_has_request (s : State) (events : list Event) :
  (loadingContent s = true -> inFlight s <> []) ->
  loadingContent (run s events) = true -> inFlight (run s events) <> [].
Proof.
  revert s. induction events as [|e events IH]; intros s Hinv; [done|].
  rewrite run_cons. apply IH. by apply spinner_step.
Qed.

Lemma lesson_step (s : State) (e : Event) :
  lessonContent s <> [] -> lessonContent (step s e) <> [].
Proof.
  intros Hne. destruct e as [d|m|ticket reply|reply|fresh|dt]; simpl.
  - case_bool_decide; [done|]. unfold depthEffect. simpl.
    by repeat case_match.
  - unfold handleModuleSelect. simpl. by case_match.
  - unfold lessonSettled. case_bool_decide; [|done].
    destruct reply as [|response]; simpl; [done|].
    apply lessonText_nonempty.
  - destruct (loadingAudio s); [done|]. unfold playAudioTutor.
    repeat case_match; simpl; done.
  - by destruct (audioContextRef s).
  - done.
Qed.

(** X18: once a lesson is shown the lesson text is never empty again,
    whatever is pressed and however the requests settle; so the audio
    button is never disabled for want of a text. *)
Theorem lesson_stays_nonempty (s : State) (events : list Event) :
  lessonContent s <> [] -> lessonContent (run s events) <> [].
Proof.
  revert s. induction events as [|e events IH]; intros s Hne; [done|].
  rewrite run_cons. apply IH. by apply lesson_step.
Qed.

(** X19: [playAudioTutor] starts a source only when there is a lesson
    text, the speech request was answered with audio data that are not
    empty, an audio context exists and the data decode; the source then
    plays the decoded buffer from the current time of the context. *)
Theorem playback_needs_audio (reply : Reply) (s : State) :
  started (playAudioTutor reply s) <> started s ->
  lessonContent s <> []
  /\ exists response audio ctx buf,
       reply = Resolved response
       /\ inlineData response = Some audio /\ audio <> []
       /\ audioContextRef s = Some ctx
       /\ decodeAudioData audio ctx default_rate = Some buf
       /\ started (playAudioTutor reply s)
          = started s ++ [{| buffer := buf; startedAt := currentTime ctx |}].
Proof.
  unfold playAudioTutor, generateAudioLesson.
  destruct (lessonContent s) as [|c t] eqn:Hcontent; [done|].
  cbn [is_nil]. destruct reply as [|response]; [done|].
  destruct (inlineData response) as [[|a audio]|] eqn:Haudio; cbn [present];
    [done| |done].
  destruct (audioContextRef s) as [ctx|] eqn:Hctx; [|done].
  destruct (decodeAudioData (a :: audio) ctx default_rate) as [buf|] eqn:Hbuf;
    [|done].
  intros _. split; [done|]. exists response, (a :: audio), ctx, buf.
  split_and!; try done.
  unfold started. simpl. by rewrite Hctx.
Qed.

End LessonPane.

(** A change of depth in a session with a lesson. *)
Lemma spinner_has_request_witness :
  App.loadingContent (App.run session_with_lesson [App.ClickDepth SUMMARY])
  = true
  /\ App.inFlight (App.run session_with_lesson [App.ClickDepth SUMMARY])
     <> [].
Proof.
  split; [reflexivity|].
  apply (spinner_has_request session_with_lesson [App.ClickDepth SUMMARY]).
  - intros H. vm_compute in H. discriminate H.
  - reflexivity.
Defined.

(** A change of depth whose request fails. *)
Lemma lesson_stays_nonempty_witness :
  App.lessonContent session_with_lesson = js "# Limits"
  /\ App.lessonContent
       (App.run session_with_lesson
          [App.ClickDepth SUMMARY; App.LessonSettled 1 Rejected])
     <> [].
Proof.
  split; [reflexivity|].
  apply (lesson_stays_nonempty session_with_lesson
           [App.ClickDepth SUMMARY; App.LessonSettled 1 Rejected]).
  intros H. vm_compute in H. discriminate H.
Defined.

(** The speech of four samples in a session with a lesson. *)
Lemma playback_needs_audio_witness :
  App.lessonContent session_with_lesson <> []
  /\ exists response audio ctx buf,
       speech_reply = Resolved response
       /\ inlineData response = Some audio /\ audio <> []
       /\ App.audioContextRef session_with_lesson = Some ctx
       /\ decodeAudioData audio ctx default_rate = Some buf
       /\ App.started (App.playAudioTutor speech_reply session_with_lesson)
          = App.started session_with_lesson
            ++ [{| buffer := buf; startedAt := currentTime ctx |}].
Proof.
  apply (playback_needs_audio speech_reply session_with_lesson).
  intros H. vm_compute in H. discriminate H.
Defined.

(** ** The upload *)

Section Uploads.
Import DataUrl Upload.

Lemma upload_inv_initial : upload_inv initial.
Proof. unfold upload_inv. simpl. split_and!; try done; lia. Qed.

Lemma upload_inv_step (s : State) (e : Event) :
  upload_inv s -> upload_inv (step s e).
Proof.
  intros Hinv. pose proof Hinv as (Hload & Hrun & Hnone & Hone).
  destruct e as [|read|reply|reply]; simpl.
  - unfold screen.
    destruct (structure s) eqn:Hst, (loadingStructure s) eqn:Hl;
      try done.
    unfold upload_inv, handleFileUpload. simpl. rewrite Hst.
    destruct (Hnone eq_refl) as [-> ->]. split_and!; try done; lia.
  - unfold fileRead. destruct (upload s) eqn:Hph; try done.
    destruct (Hnone (Hrun ltac:(congruence))) as [Hg Hp].
    destruct (fileToGenerativePart read); unfold upload_inv, uploadFailed;
      simpl; rewrite ?Hg, ?Hp, ?(Hrun ltac:(congruence));
      split_and!; try done; try lia.
    destruct Hload as [_ Hload]. rewrite Hload by congruence. done.
  - unfold structureSettled. destruct (upload s) eqn:Hph; try done.
    destruct (Hnone (Hrun ltac:(congruence))) as [Hg Hp].
    destruct (structureResult reply); unfold upload_inv, uploadFailed;
      simpl; rewrite ?Hg, ?Hp, ?(Hrun ltac:(congruence));
      split_and!; try done; try lia.
  - unfold graphSettled. destruct (graphPending s) as [|n] eqn:Hp; [done|].
    unfold upload_inv. simpl. split_and!; try done.
    + intros Hst. destruct (Hnone Hst) as [_ ?]. lia.
    + destruct (graphData s); simpl in *; [lia|].
      destruct (graphResult reply); simpl; lia.
Qed.

Lemma upload_inv_run (s : State) (events : list Event) :
  upload_inv s -> upload_inv (run s events).
Proof.
  revert s. induction events as [|e events IH]; intros s Hs; [done|].
  unfold run in *. simpl. apply IH. by apply upload_inv_step.
Qed.

(** X20: in a session the knowledge graph is requested at most once, and
    not before a structure was obtained: while there is no structure
    there is neither graph nor graph request, and the upload screen is
    shown only then. *)
Theorem graph_requested_at_most_once (events : list Event) :
  let s := run initial events in
  (graphPending s + (if graphData s is Some _ then 1 else 0) <= 1)%nat
  /\ (structure s = None -> graphData s = None /\ graphPending s = 0%nat)
  /\ (screen s = UploadScreen <-> structure s = None /\ upload s = Idle).
Proof.
  cbv zeta.
  destruct (upload_inv_run initial events upload_inv_initial)
    as (Hload & Hrun & Hnone & Hone).
  split_and!; [done|done|]. unfold screen.
  destruct (structure (run initial events)) eqn:Hst,
    (loadingStructure (run initial events)) eqn:Hl.
  - split; [done|by intros [? _]].
  - split; [done|by intros [? _]].
  - split; [done|]. intros [_ Hidle]. by destruct (proj1 Hload eq_refl).
  - split; [|done]. intros _. split; [done|].
    destruct (upload (run initial events)) eqn:Hph; [done| |];
      by discriminate (proj2 Hload ltac:(congruence)).
Qed.

Lemma structure_step (s : State) (e : Event) (cs : CourseStructure) :
  upload_inv s -> structure s = Some cs -> structure (step s e) = Some cs.
Proof.
  intros (Hload & Hrun & Hnone & Hone) Hst.
  assert (Hidle : upload s = Idle).
  { destruct (upload s) eqn:Hph; [done| |];
      rewrite Hrun in Hst by congruence; done. }
  destruct e as [|read|reply|reply]; simpl.
  - unfold screen. rewrite Hst. by destruct (loadingStructure s).
  - unfold fileRead. by rewrite Hidle.
  - unfold structureSettled. by rewrite Hidle.
  - unfold graphSettled. by destruct (graphPending s).
Qed.

(** X21: the structure of the course, once obtained, stays for the rest
    of the session: no later event replaces or removes it. *)
Theorem structure_is_kept
    (before after : list Event) (cs : CourseStructure) :
  structure (run initial before) = Some cs ->
  structure (run initial (before ++ after)) = Some cs.
Proof.
  unfold run. rewrite fold_left_app.
  pose proof (upload_inv_run initial before upload_inv_initial) as Hinv.
  fold (run initial before). generalize dependent (run initial before).
  induction after as [|e after IH]; intros s Hinv Hst; [done|].
  simpl. apply IH; [by apply upload_inv_step|by apply structure_step].
Qed.

(** X22: an upload that fails, in the reading of the file or in the
    structure request, raises one alert, requests no graph and leads back
    to the upload screen. *)
Theorem failed_upload_alerts (events : list Event) (e : Event) :
  let s := run initial events in
  (upload s = Reading /\ e = FileLoaded ReadFailed)
  \/ (upload s = Parsing
      /\ exists reply err, e = StructureSettled reply
                           /\ structureResult reply = Throw err) ->
  alerts (step s e) = S (alerts s)
  /\ screen (step s e) = UploadScreen
  /\ structure (step s e) = None
  /\ graphPending (step s e) = 0%nat
  /\ graphData (step s e) = None.
Proof.
  cbv zeta.
  destruct (upload_inv_run initial events upload_inv_initial)
    as (Hload & Hrun & Hnone & Hone).
  intros [[Hph ->]|(Hph & reply & err & -> & Herr)]; simpl.
  - unfold fileRead. rewrite Hph. simpl.
    assert (Hst : structure (run initial events) = None)
      by (apply Hrun; congruence).
    destruct (Hnone Hst) as [Hg Hp]. unfold screen. simpl.
    by rewrite Hst.
  - unfold structureSettled. rewrite Hph, Herr. simpl.
    assert (Hst : structure (run initial events) = None)
      by (apply Hrun; congruence).
    destruct (Hnone Hst) as [Hg Hp]. unfold screen. simpl.
    by rewrite Hst.
Qed.

End Uploads.

(** After the upload: the reply of the graph request, and a stray event
    of the file input. *)
Lemma structure_is_kept_witness :
  Upload.structure
    (Upload.run Upload.initial
       (upload_done ++ [Upload.GraphSettled Rejected; Upload.FileChosen]))
  = Some course.
Proof.
  apply (structure_is_kept upload_done
           [Upload.GraphSettled Rejected; Upload.FileChosen] course).
  reflexivity.
Defined.

(** A file that cannot be read. *)
Lemma failed_upload_alerts_witness :
  let s := Upload.run Upload.initial [Upload.FileChosen] in
  let e := Upload.FileLoaded DataUrl.ReadFailed in
  Upload.alerts (Upload.step s e) = S (Upload.alerts s)
  /\ Upload.screen (Upload.step s e) = Upload.UploadScreen
  /\ Upload.structure (Upload.step s e) = None
  /\ Upload.graphPending (Upload.step s e) = 0%nat
  /\ Upload.graphData (Upload.step s e) = None.
Proof.
  apply (failed_upload_alerts [Upload.FileChosen]
           (Upload.FileLoaded DataUrl.ReadFailed)).
  left. split; reflexivity.
Defined.

(** ** Starting an exam *)

Section ExamStarts.
Import ExamStart.

(** X23: when the exam request fails or its reply does not parse, the
    exam still opens, with no question.  The modal keeps the answers of
    earlier exams, and on the exam without questions Submit Exam, while
    it is shown, is enabled exactly when the modal holds no answer: so on
    a fresh modal it is enabled from the start. *)
Theorem failed_exam_opens_empty (s : State) (reply : Reply) :
  (0 < examPending s)%nat -> failed reply ->
  let s' := examSettled reply s in
  showExam s' = true
  /\ examQuestions s' = []
  /\ forall (questions : list ExamModal.ExamQuestion) (st : ExamModal.State),
       length questions = length (examQuestions s') ->
       ExamModal.submitted st = false ->
       (ExamModal.submit_disabled questions st = false
        <-> ExamModal.answers st = ∅).
Proof.
  intros Hp Hfail. cbv zeta. unfold examSettled.
  destruct (examPending s) as [|n]; [lia|].
  assert (Hres : examResult reply = Ok []).
  { unfold examResult, generateExam. destruct reply as [|response]; [done|].
    unfold examOfResponse. simpl in Hfail.
    by rewrite (safeParseJSON_unparseable _ Hfail). }
  rewrite Hres. simpl. split_and!; [done|done|].
  intros questions st Hlen _. destruct questions; [|done].
  unfold ExamModal.submit_disabled. simpl.
  rewrite negb_false_iff, Nat.eqb_eq. apply map_size_empty_iff.
Qed.

End ExamStarts.

(** ** The chat *)

Section Chats.
Import Sidekick Chat.

Lemma chat_run_cons (s : State) (e : Event) (events : list Event) :
  run s (e :: events) = run (step s e) events.
Proof. reflexivity. Qed.

Lemma chat_run_snoc (s : State) (events : list Event) (e : Event) :
  run s (events ++ [e]) = step (run s events) e.
Proof. unfold run. by rewrite fold_left_app. Qed.

Lemma blank_trim (ws : jstring) : blank ws -> trim ws = [].
Proof.
  intros H. unfold trim.
  assert (trim_start ws = []) as ->; [|done].
  induction H as [|c ws Hc _ IH]; [done|]. simpl. by rewrite Hc.
Qed.

(** X24: a message of white space only, with no image attached, is not
    sent, by the Enter key or by the button (which is enabled for it):
    nothing changes. *)
Theorem blank_message_is_not_sent (s : State) (now1 now2 : N) :
  blank (chatInput s) -> no_image s = true ->
  step s (EnterPressed now1 now2) = s /\ step s (SendClicked now1 now2) = s.
Proof.
  intros Hb Hi. simpl. unfold handleSendMessage.
  rewrite (blank_trim _ Hb), Hi. simpl. split; [done|]. by case_match.
Qed.

Lemma history_step (s : State) (e : Event) :
  chatHistory s `prefix_of` chatHistory (step s e).
Proof.
  destruct e; simpl; try done.
  - unfold handleImageUpload. by case_match.
  - unfold handleExplainSelection. by case_match.
  - unfold handleSendMessage. case_match; [done|]. by apply prefix_app_r.
  - case_match; [done|]. unfold handleSendMessage.
    case_match; [done|]. by apply prefix_app_r.
  - unfold chatSettled. case_match; [|done]. simpl.
    case_match; [|done]. by apply prefix_app_r.
Qed.

(** X25: the history of the chat only grows at its end: whatever
    happens, the messages shown before are still there, in their
    order. *)
Theorem chat_history_grows (s : State) (events : list Event) :
  chatHistory s `prefix_of` chatHistory (run s events).
Proof.
  revert s. induction events as [|e events IH]; intros s; [done|].
  rewrite chat_run_cons. etrans; [apply history_step|apply IH].
Qed.

Lemma carries_weaken (s s' : State) :
  chatHistory s `prefix_of` chatHistory s' ->
  inFlight s' ⊆ inFlight s ->
  carries_earlier_turns s -> carries_earlier_turns s'.
Proof.
  intros Hpre Hsub Hinv ticket req Hin.
  destruct (Hinv ticket req (Hsub _ Hin)) as [Hp Hl]. split.
  - etrans; [exact Hp|]. destruct Hpre as [k ->].
    rewrite fmap_app. by apply prefix_app_r.
  - apply prefix_length in Hpre. lia.
Qed.

Lemma carries_send (s : State) (now1 now2 : N) :
  carries_earlier_turns s ->
  carries_earlier_turns (handleSendMessage now1 now2 s).
Proof.
  intros Hinv. unfold handleSendMessage. case_match; [done|].
  intros ticket req Hin. simpl in *.
  apply elem_of_app in Hin as [Hin|Hin].
  - destruct (Hinv ticket req Hin) as [Hp Hl]. split.
    + etrans; [exact Hp|]. rewrite fmap_app. by apply prefix_app_r.
    + rewrite length_app. simpl. lia.
  - apply list_elem_of_singleton in Hin as [= -> ->]. simpl. split.
    + rewrite fmap_app. by apply prefix_app_r.
    + rewrite length_fmap, length_app. simpl. lia.
Qed.

Lemma carries_step (s : State) (e : Event) :
  carries_earlier_turns s -> carries_earlier_turns (step s e).
Proof.
  intros Hinv. destruct e; simpl; try done.
  - unfold handleImageUpload. by case_match.
  - unfold handleExplainSelection. by case_match.
  - by apply carries_send.
  - case_match; [done|]. by apply carries_send.
  - unfold chatSettled. case_match; [|done].
    eapply carries_weaken; [| |exact Hinv]; simpl.
    + case_match; [|done]. by apply prefix_app_r.
    + intros p Hp. by apply list_elem_of_filter in Hp as [_ ?].
Qed.

(** X26: a chat request that is in flight carries as its history the
    chat as it was before the message it was sent for: a strict prefix of
    the history shown now, however many messages came since. *)
Theorem request_carries_earlier_turns
    (events : list Event) (ticket : nat) (req : ChatRequest) :
  let s := run initial events in
  (ticket, req) ∈ inFlight s ->
  history req `prefix_of` (toTurn <$> chatHistory s)
  /\ (length (history req) < length (chatHistory s))%nat.
Proof.
  cbv zeta. revert ticket req. fold (carries_earlier_turns (run initial events)).
  induction events as [|e events IH] using rev_ind.
  - intros ticket req Hin. by apply elem_of_nil in Hin.
  - rewrite chat_run_snoc. by apply carries_step.
Qed.

Lemma by_role_snoc (r : Role) (h : list Message) (m : Message) :
  length (by_role r (h ++ [m]))
  = (length (by_role r h) + if bool_decide (role m = r) then 1 else 0)%nat.
Proof.
  unfold by_role. rewrite filter_app, length_app. f_equal.
  case_bool_decide.
  - by rewrite filter_cons_True.
  - by rewrite filter_cons_False.
Qed.

Lemma tally_send (s : State) (now1 now2 : N) :
  (length (by_role Model (chatHistory s)) + length (inFlight s)
   <= length (by_role User (chatHistory s)))%nat ->
  let s' := handleSendMessage now1 now2 s in
  (length (by_role Model (chatHistory s')) + length (inFlight s')
   <= length (by_role User (chatHistory s')))%nat.
Proof.
  intros Hinv. cbv zeta. unfold handleSendMessage. case_match; [done|].
  simpl. rewrite !by_role_snoc, length_app. simpl. lia.
Qed.

Lemma tally_step (s : State) (e : Event) :
  (length (by_role Model (chatHistory s)) + length (inFlight s)
   <= length (by_role User (chatHistory s)))%nat ->
  (length (by_role Model (chatHistory (step s e)))
   + length (inFlight (step s e))
   <= length (by_role User (chatHistory (step s e))))%nat.
Proof.
  intros Hinv. destruct e; simpl; try done.
  - unfold handleImageUpload. by case_match.
  - unfold handleExplainSelection. by case_match.
  - by apply tally_send.
  - case_match; [done|]. by apply tally_send.
  - unfold chatSettled. case_bool_decide as Hin; [|done]. simpl.
    assert (Hless : (length (filter (fun p => p.1 <> ticket) (inFlight s))
                     < length (inFlight s))%nat).
    { apply list_elem_of_fmap in Hin as (p & -> & Hp).
      apply list_elem_of_split in Hp as (l1 & l2 & ->).
      rewrite filter_app, filter_cons_False by (intros H; by apply H).
      rewrite !length_app. simpl.
      pose proof (length_filter (fun p0 : nat * ChatRequest => p0.1 <> p.1) l1).
      pose proof (length_filter (fun p0 : nat * ChatRequest => p0.1 <> p.1) l2).
      lia. }
    destruct (chatResult reply); [|lia].
    rewrite !by_role_snoc. simpl. lia.
Qed.

(** X27: every reply of the model in the history answers a message of
    the user: the replies shown and the requests still in flight are
    together no more than the messages of the user. *)
Theorem replies_answer_messages (events : list Event) :
  let s := run initial events in
  (length (by_role Model (chatHistory s)) + length (inFlight s)
   <= length (by_role User (chatHistory s)))%nat.
Proof.
  cbv zeta. induction events as [|e events IH] using rev_ind; [done|].
  rewrite chat_run_snoc. by apply tally_step.
Qed.

Lemma model_text_step (s : State) (e : Event) :
  Forall (fun m => role m = Model -> content m <> []) (chatHistory s) ->
  Forall (fun m => role m = Model -> content m <> [])
    (chatHistory (step s e)).
Proof.
  intros Hinv.
  assert (Hsend : forall now1 now2,
    Forall (fun m => role m = Model -> content m <> [])
      (chatHistory (handleSendMessage now1 now2 s))).
  { intros now1 now2. unfold handleSendMessage. case_match; [done|]. simpl.
    apply Forall_app. split; [done|]. by repeat constructor. }
  destruct e; simpl; try done.
  - unfold handleImageUpload. by case_match.
  - unfold handleExplainSelection. by case_match.
  - case_match; [done|]. apply Hsend.
  - unfold chatSettled. case_match; [|done]. simpl.
    destruct reply as [|[response|]]; simpl; try done.
    apply Forall_app. split; [done|]. repeat constructor. simpl. intros _.
    by destruct (text response) as [[|c t]|].
Qed.

(** X28: no reply of the model is shown empty: in any history reached,
    every message of the model has a text (a message of the user may have
    none, when it was sent with an image only). *)
Theorem model_messages_have_text (events : list Event) :
  Forall (fun m => role m = Model -> content m <> [])
    (chatHistory (run initial events)).
Proof.
  induction events as [|e events IH] using rev_ind; [constructor|].
  rewrite chat_run_snoc. by apply model_text_step.
Qed.

Lemma trim_end_snoc (l : jstring) (c : N) :
  is_space c = false -> trim_end (l ++ [c]) = l ++ [c].
Proof.
  intros Hc. induction l as [|a l IH]; simpl.
  - by rewrite Hc.
  - rewrite IH. destruct (l ++ [c]) eqn:E; [by destruct l|].
    by rewrite andb_false_r.
Qed.

Lemma explainPrompt_trim (selection : jstring) :
  trim (explainPrompt selection) = explainPrompt selection.
Proof.
  unfold trim, explainPrompt.
  change (js "Explain this specific part to me like I'm 5: ")
    with (ch "E" :: js "xplain this specific part to me like I'm 5: ").
  cbn [app trim_start]. change (is_space (ch "E")) with false. cbv iota.
  rewrite !app_comm_cons, !app_assoc. by apply trim_end_snoc.
Qed.

(** X29: a selection of the lesson followed by the Enter key sends the
    request to explain it: the history gets one message of the user, the
    prompt with the selection between quotes; the panel is open and the
    input is empty again. *)
Theorem selection_then_enter_sends
    (s : State) (selection : jstring) (now1 now2 : N) :
  selection <> [] ->
  let s' := run s [Selected (Some selection); EnterPressed now1 now2] in
  chatHistory s'
  = chatHistory s
    ++ [{| id := toString now1; role := User;
           content := explainPrompt selection; timestamp := now2 |}]
  /\ chatOpen s' = true
  /\ chatInput s' = []
  /\ length (inFlight s') = S (length (inFlight s)).
Proof.
  intros Hne. cbv zeta. destruct selection as [|c sel]; [done|].
  unfold run. cbn [fold_left step]. unfold handleExplainSelection.
  cbn [App.present]. unfold handleSendMessage. cbn [chatInput].
  rewrite explainPrompt_trim.
  assert (is_nil (explainPrompt (c :: sel)) = false) as -> by done.
  cbn [andb chatHistory chatOpen chatInput inFlight content].
  split_and!; try done. rewrite length_app. simpl. lia.
Qed.

(** X30: the busy flag stops the button but not the Enter key: while a
    reply is awaited, a message typed and sent with Enter goes out as a
    further request. *)
Theorem enter_sends_while_chatting (s : State) (now1 now2 : N) :
  isChatting s = true -> trim (chatInput s) <> [] ->
  step s (SendClicked now1 now2) = s
  /\ length (inFlight (step s (EnterPressed now1 now2)))
     = S (length (inFlight s))
  /\ length (chatHistory (step s (EnterPressed now1 now2)))
     = S (length (chatHistory s)).
Proof.
  intros Hbusy Hne. simpl. rewrite Hbusy. simpl. split; [done|].
  unfold handleSendMessage.
  destruct (trim (chatInput s)) eqn:Htrim; [done|]. simpl.
  rewrite !length_app. simpl. lia.
Qed.

End Chats.

(** The exam request is rejected. *)
Lemma failed_exam_opens_empty_witness :
  let s' := ExamStart.examSettled Rejected exam_requested in
  ExamStart.showExam s' = true
  /\ ExamStart.examQuestions s' = []
  /\ forall (questions : list ExamModal.ExamQuestion) (st : ExamModal.State),
       length questions = length (ExamStart.examQuestions s') ->
       ExamModal.submitted st = false ->
       (ExamModal.submit_disabled questions st = false
        <-> ExamModal.answers st = ∅).
Proof.
  apply (failed_exam_opens_empty exam_requested Rejected).
  - simpl. lia.
  - exact I.
Defined.

(** Three spaces in the input. *)
Lemma blank_message_is_not_sent_witness :
  let s := Chat.setChatInput (js "   ") Chat.initial in
  Chat.step s (Chat.EnterPressed 1 2) = s
  /\ Chat.step s (Chat.SendClicked 1 2) = s.
Proof.
  apply (blank_message_is_not_sent
           (Chat.setChatInput (js "   ") Chat.initial) 1 2).
  - repeat constructor.
  - reflexivity.
Defined.

(** The first of two requests in flight: it carries no history, and two
    messages are shown. *)
Lemma request_carries_earlier_turns_witness :
  let s := Chat.step chat_awaiting (Chat.EnterPressed 3 4) in
  let req :=
    Sidekick.chatRequest [] (js "hi") (js "General Syllabus Context") None in
  Sidekick.history req `prefix_of` (Chat.toTurn <$> Chat.chatHistory s)
  /\ (length (Sidekick.history req) < length (Chat.chatHistory s))%nat.
Proof.
  apply (request_carries_earlier_turns
           [Chat.Typed (js "hi"); Chat.EnterPressed 1 2;
            Chat.Typed (js "more"); Chat.EnterPressed 3 4]
           0%nat
           (Sidekick.chatRequest [] (js "hi") (js "General Syllabus Context")
              None)).
  apply list_elem_of_here.
Defined.

(** The word [limit] is selected. *)
Lemma selection_then_enter_sends_witness :
  let s' := Chat.run Chat.initial
              [Chat.Selected (Some (js "limit")); Chat.EnterPressed 1 2] in
  Chat.chatHistory s'
  = Chat.chatHistory Chat.initial
    ++ [{| Chat.id := Chat.toString 1; Chat.role := Sidekick.User;
           Chat.content := Chat.explainPrompt (js "limit");
           Chat.timestamp := 2 |}]
  /\ Chat.chatOpen s' = true
  /\ Chat.chatInput s' = []
  /\ length (Chat.inFlight s') = S (length (Chat.inFlight Chat.initial)).
Proof.
  apply (selection_then_enter_sends Chat.initial (js "limit") 1 2).
  discriminate.
Defined.

(** A second message while the first is awaited. *)
Lemma enter_sends_while_chatting_witness :
  Chat.step chat_awaiting (Chat.SendClicked 3 4) = chat_awaiting
  /\ length (Chat.inFlight (Chat.step chat_awaiting (Chat.EnterPressed 3 4)))
     = S (length (Chat.inFlight chat_awaiting))
  /\ length (Chat.chatHistory
               (Chat.step chat_awaiting (Chat.EnterPressed 3 4)))
     = S (length (Chat.chatHistory chat_awaiting)).
Proof.
  apply (enter_sends_while_chatting chat_awaiting 3 4).
  - reflexivity.
  - intros H. vm_compute in H. discriminate H.
Defined.
